(** * envire: the environment graph engine of slam-envire

    A shallow embedding of [src/Core.hpp] (the item protocol generated by
    [ENVIRONMENT_ITEM], layer metadata, typed item lookup, the point
    conversions of [Map]), of [src/operators/MLSSlope.hpp], of
    [tools/env_grid_to_mls.cpp], of the geometry of
    [viz/MLSVisualization.cpp] and of [Pointcloud::getExtents], with the
    properties the specification states about them.

    Core.hpp only declares [attachItem] and the other operations defined in
    Core.cpp, and it includes Holder.hpp; neither file is embedded.  Definitions for what they define follow the specification
    and say so in their comment ("Modelled from the spec").

    Conventions.
    - A pointer to an item ([EnvironmentItem*], [boost::intrusive_ptr]) is an
      address [ptr]; the objects live in a store [Memory].  The null pointer
      is [None] where the code can pass one.
    - [std::map<std::string, V>] is a list of bindings kept in ascending key
      order, which is the order its iterators visit ([StdMap]).
    - [std::multimap<K*, V*>] is the list of its bindings.
    - A [throw] is the [Throw] result of the [result] type. *)

From Stdlib Require Import String Ascii ZArith QArith List Bool Sorted OrdersEx DecimalString.
From stdpp Require Import base tactics option list gmap strings pretty.

Local Open Scope string_scope.
Local Open Scope Z_scope.

(** ** Exceptions *)

(** The code throws [std::runtime_error] with a message; uncaught exceptions
    of the libraries the tool calls are [other_exception]. *)
Inductive exn :=
| runtime_error (what : string)
| bad_lexical_cast
| other_exception (what : string).

Inductive result (A : Type) :=
| Ok (a : A)
| Throw (e : exn).
Arguments Ok {A} a.
Arguments Throw {A} e.

Definition bind {A B : Type} (r : result A) (k : A -> result B) : result B :=
  match r with
  | Ok a => k a
  | Throw e => Throw e
  end.

Notation "x <-- r ;; k" := (bind r (fun x => k))
  (at level 100, r at next level, right associativity).

(** ** [std::map<std::string, V>] *)

Module StdMap.

Abbreviation t V := (list (string * V)).

Definition empty {V : Type} : t V := [].

(** [m.find(k)], [None] for [m.end()]. *)
Fixpoint find {V : Type} (k : string) (m : t V) : option V :=
    match m with
    | [] => None
    | (k', v) :: m' => if String.eqb k k' then Some v else find k m'
    end.

(** [m[k] = v]: the binding is placed at the position the key order gives
      it; an existing binding of [k] is overwritten. *)
Fixpoint insert {V : Type} (k : string) (v : V) (m : t V) : t V :=
    match m with
    | [] => [(k, v)]
    | (k', v') :: m' =>
        match String_as_OT.compare k k' with
        | Lt => (k, v) :: (k', v') :: m'
        | Eq => (k, v) :: m'
        | Gt => (k', v') :: insert k v m'
        end
    end.

(** [m.count(k) != 0] *)
Definition mem {V : Type} (k : string) (m : t V) : bool :=
    match find k m with Some _ => true | None => false end.

Definition keys {V : Type} (m : t V) : list string := map fst m.

(** Iteration from [m.begin()] to [m.end()] visits the values in this
      order. *)
Definition values {V : Type} (m : t V) : list V := map snd m.

(** The representation invariant: strictly ascending keys. *)
Definition ordered {V : Type} (m : t V) : Prop :=
    StronglySorted String_as_OT.lt (keys m).

(** The map reached from the empty one by the assignments [m[k] = v] of
      [h], first to last. *)
Definition of_insertions {V : Type} (h : list (string * V)) : t V :=
    fold_left (fun m kv => insert (fst kv) (snd kv) m) h empty.

End StdMap.

(** ** Classes and [dynamic_cast] *)

(** A class is named together with its chain of bases: every item class
    derives (singly) from [EnvironmentItem]. *)
Inductive Class :=
| EnvironmentItemClass
| Derived (name : string) (base : Class).

#[global] Instance Class_eq_dec : EqDecision Class.
Proof. solve_decision. Defined.

(** [is_a c T]: an object whose dynamic class is [c] is a [T], that is
    [dynamic_cast<T*>] of a pointer to it is not null. *)
Fixpoint is_a (c T : Class) : bool :=
  if bool_decide (c = T) then true
  else match c with
       | EnvironmentItemClass => false
       | Derived _ base => is_a base T
       end.

Definition FrameNodeClass : Class := Derived "envire::FrameNode" EnvironmentItemClass.
Definition LayerClass : Class := Derived "envire::Layer" EnvironmentItemClass.
Definition CartesianMapClass : Class := Derived "envire::CartesianMap" LayerClass.
Definition MapClass (dimension : Z) : Class :=
  Derived ("envire::Map<" ++ pretty dimension ++ ">") CartesianMapClass.
Definition PointcloudClass : Class := Derived "envire::Pointcloud" (MapClass 3).
Definition OperatorClass : Class := Derived "envire::Operator" EnvironmentItemClass.
Definition MLSSlopeClass : Class := Derived "envire::MLSSlope" OperatorClass.

(** ** Items *)

(** An address of an item, or of the environment. *)
Definition ptr : Type := positive.

(** The members of the base class [EnvironmentItem] (Core.hpp 100-113);
    [ref_count] belongs to the smart-pointer protocol and is left out. *)
Record EnvironmentItem := mkEnvironmentItem {
  unique_id : string;
  label : string;
  env : option ptr;
}.

(** ** Layer metadata *)

(** [typeid(T)], by the name of the type. *)
Definition type_info : Type := string.

(** Modelled from the spec: [HolderBase] and [Holder<T>] of
    [envire/core/Holder.hpp], which Core.hpp includes and which is absent.
    The spec (section 3) calls it a type-erased holder with a runtime type
    tag; [V] is the type of the erased values. *)
Record HolderBase (V : Type) := mkHolder {
  held_type : type_info;
  held : V;
}.
Arguments mkHolder {V} held_type held.
Arguments held_type {V} h.
Arguments held {V} h.

(** Modelled from the spec: [HolderBase::isOfType<T>()], absent with
    Holder.hpp and called by [Layer::hasData<T>]: whether the holder's type
    tag is that of [T]. *)
Definition isOfType {V : Type} (T : type_info) (h : HolderBase V) : bool :=
  bool_decide (held_type h = T).

(** Modelled from the spec: the error kind [TypeMismatch] (section 7), with
    the message of the check that is commented out at Core.hpp 472-481. *)
Definition TypeMismatch : exn := runtime_error "data type mismatch.".

(** Modelled from the spec: [HolderBase::get<T>()], absent with Holder.hpp.
    Spec, section 4.3: the typed read fails with [TypeMismatch] when the
    holder reports a type different from [T], and yields the held value
    otherwise. *)
Definition Holder_get {V : Type} (T : type_info) (h : HolderBase V) : result V :=
  if isOfType T h then Ok (held h) else Throw TypeMismatch.

(** The members [Layer] adds (Core.hpp 341-349). *)
Record Layer (V : Type) := mkLayer {
  immutable : bool;
  dirty : bool;
  data_map : StdMap.t (HolderBase V);
}.
Arguments mkLayer {V} immutable dirty data_map.
Arguments immutable {V} l.
Arguments dirty {V} l.
Arguments data_map {V} l.

Section LayerData.
Context {V : Type}.
(** [T()]: the value a default-constructed [T] has; [new Holder<T>] holds
    it. *)
Variable default_construct : type_info -> V.

(** Modelled from the spec: [new Holder<T>], the constructor being absent
    with Holder.hpp; spec, section 4.3: a default is created on a miss. *)
Definition new_Holder (T : type_info) : HolderBase V :=
  mkHolder T (default_construct T).

(** Modelled from the spec: the untyped [Layer::hasData(key)], declared
    at Core.hpp 445 ("will return true if an entry for metadata for the
    given key exists") with its body in the absent Core.cpp. *)
Definition hasData (type : string) (this : Layer V) : bool :=
  StdMap.mem type (data_map this).

(** [Layer::hasData<T>(key)], Core.hpp 450-457. *)
Definition hasData_typed (T : type_info) (type : string) (this : Layer V) : bool :=
  match StdMap.find type (data_map this) with
  | None => false
  | Some h => isOfType T h
  end.

Definition set_data_map (m : StdMap.t (HolderBase V)) (this : Layer V) : Layer V :=
  mkLayer (immutable this) (dirty this) m.

(** A call through a null holder pointer; [getData] never gets there
    ([getData_holder_present]). *)
Definition null_holder : exn := other_exception "null holder".

(** The non-const [Layer::getData<T>(key)], Core.hpp 463-485: the result
    and the layer after the call.  The type check of the body is commented
    out there; what is left is the check [get<T>] makes. *)
Definition getData (T : type_info) (type : string) (this : Layer V)
  : result V * Layer V :=
  let this' :=
    if negb (hasData type this)
    then set_data_map (StdMap.insert type (new_Holder T) (data_map this)) this
    else this in
  match StdMap.find type (data_map this') with
  | Some h => (Holder_get T h, this')
  | None => (Throw null_holder, this')
  end.

(** The const [Layer::getData<T>(key)], Core.hpp 491-511. *)
Definition getData_const (T : type_info) (type : string) (this : Layer V) : result V :=
  match StdMap.find type (data_map this) with
  | None => Throw (runtime_error ("No metadata with name " ++ type ++ " available "))
  | Some h => Holder_get T h
  end.
End LayerData.

(** ** Objects and the store *)

(** The members [Operator] adds (Core.hpp 724-725). *)
Record Operator := mkOperator {
  inputArity : Z;
  outputArity : Z;
}.

(** The members [MLSSlope] adds (MLSSlope.hpp 23-24); the threshold is only
    stored and copied here. *)
Record MLSSlope := mkMLSSlope {
  corrected_step_threshold : Q;
  use_stddev : bool;
}.

(** What an object holds besides its [EnvironmentItem] base.  The transform
    of a frame node is not part of the model. *)
Inductive Members (V : Type) :=
| FrameNodeMembers
| LayerMembers (l : Layer V)
| OperatorMembers (o : Operator) (slope : option MLSSlope).
Arguments FrameNodeMembers {V}.
Arguments LayerMembers {V} l.
Arguments OperatorMembers {V} o slope.

Record Object (V : Type) := mkObject {
  dyn_class : Class;
  base : EnvironmentItem;
  members : Members V;
}.
Arguments mkObject {V} dyn_class base members.
Arguments dyn_class {V} o.
Arguments base {V} o.
Arguments members {V} o.

Abbreviation Memory V := (gmap ptr (Object V)).

(** [dynamic_cast<T*>(p)] for a possibly null [p]. *)
Definition dynamic_cast {V : Type} (T : Class) (mem : Memory V) (p : option ptr) : option ptr :=
  match p with
  | None => None
  | Some a =>
      match mem !! a with
      | Some o => if is_a (dyn_class o) T then Some a else None
      | None => None
      end
  end.

(** ** The environment (Core.hpp 733-1087) *)

(** The members of [Environment] (Core.hpp 740-759); the event handlers are
    left out.  The maps keyed by pointers are finite maps, the multimaps
    lists of bindings. *)
Record Environment := mkEnvironment {
  last_id : Z;
  items : StdMap.t ptr;
  frameNodeTree : gmap ptr ptr;
  layerTree : list (ptr * ptr);
  operatorGraphInput : list (ptr * ptr);
  operatorGraphOutput : list (ptr * ptr);
  cartesianMapGraph : gmap ptr ptr;
  rootNode : ptr;
  envPrefix : string;
}.

(** The error kinds [Ambiguous] and [NotFound] of the spec, as the
    exceptions [getItem<T>()] throws. *)
Definition Ambiguous : exn :=
  runtime_error "multiple maps in this environment are of the specified type".
Definition NotFound : exn :=
  runtime_error "no maps in this environment are of the specified type".

Section Registry.
Context {V : Type}.

(** [getItem(uniqueId)], Core.hpp 798-805. *)
Definition getItem_by_id (e : Environment) (uniqueId : string) : option ptr :=
  StdMap.find uniqueId (items e).

(** The loop of [getItem<T>()], Core.hpp 819-829, from the bindings still
    to visit and the current [result]. *)
Fixpoint getItem_loop (T : Class) (mem : Memory V) (it : list (string * ptr))
    (result0 : option ptr) : result (option ptr) :=
  match it with
  | [] => Ok result0
  | (_, p) :: it' =>
      match dynamic_cast T mem (Some p) with
      | Some map =>
          match result0 with
          | Some _ => Throw Ambiguous
          | None => getItem_loop T mem it' (Some map)
          end
      | None => getItem_loop T mem it' result0
      end
  end.

(** [getItem<T>()], Core.hpp 815-833. *)
Definition getItem (T : Class) (mem : Memory V) (e : Environment) : result ptr :=
  r <-- getItem_loop T mem (items e) None ;;
  match r with
  | None => Throw NotFound
  | Some p => Ok p
  end.

(** [getItem<T>(uniqueId)], Core.hpp 835-843. *)
Definition getItem_typed (T : Class) (mem : Memory V) (e : Environment)
    (uniqueId : string) : option ptr :=
  dynamic_cast T mem (StdMap.find uniqueId (items e)).

(** The loop of [getItems<T>()], Core.hpp 1016-1022; [result0] is the
    vector so far. *)
Fixpoint getItems_loop (T : Class) (mem : Memory V) (it : list (string * ptr))
    (result0 : list ptr) : list ptr :=
  match it with
  | [] => result0
  | (_, p) :: it' =>
      match dynamic_cast T mem (Some p) with
      | Some item => getItems_loop T mem it' (result0 ++ [item])
      | None => getItems_loop T mem it' result0
      end
  end.

(** [getItems<T>()], Core.hpp 1012-1024. *)
Definition getItems (T : Class) (mem : Memory V) (e : Environment) : list ptr :=
  getItems_loop T mem (items e) [].

(** The attached items: the values of the id map. *)
Definition attached (e : Environment) (p : ptr) : Prop :=
  exists id, StdMap.find id (items e) = Some p.

(** [p] points to an object that is a [T]. *)
Definition has_type (T : Class) (mem : Memory V) (p : ptr) : bool :=
  match dynamic_cast T mem (Some p) with Some _ => true | None => false end.

(** The bindings of the id map whose item is a [T], in the order of the
    map, and the items alone. *)
Definition typed_bindings (T : Class) (mem : Memory V) (e : Environment)
  : list (string * ptr) :=
  filter (fun kv => has_type T mem (snd kv) = true) (items e).
Definition typed_items (T : Class) (mem : Memory V) (e : Environment) : list ptr :=
  map snd (typed_bindings T mem e).
End Registry.

(** ** The item protocol: [ENVIRONMENT_ITEM] (Core.hpp 25-42) *)

Section ItemProtocol.
Context {V : Type}.

(** [set] as the macro generates it for the class [_classname] (Core.hpp
    29-36), whose copy assignment is [assign] (an assignment may throw): the
    store after the call [this->set(other)]. *)
Definition set (_classname : Class)
    (assign : Object V -> Object V -> result (Object V))
    (mem : Memory V) (this : ptr) (other : option ptr) : result (Memory V) :=
  match dynamic_cast _classname mem other with
  | Some fn =>
      match mem !! this, mem !! fn with
      | Some o, Some o' => o'' <-- assign o o' ;; Ok (<[this := o'']> mem)
      | _, _ => Ok mem
      end
  | None => Ok mem
  end.

(** [EnvironmentItem::operator=] is user-defined: declared at Core.hpp 123
    and defined in the absent Core.cpp.  A parameter here: what it makes of
    the members of the receiver's [EnvironmentItem] part, or the exception
    it throws. *)
Variable EnvironmentItem_assign : EnvironmentItem -> EnvironmentItem -> result EnvironmentItem.

(** The copy assignment the compiler generates for [MLSSlope]
    (MLSSlope.hpp 20-38 declares none): the base class first, whose
    exception ends the assignment, then the members [inputArity],
    [outputArity], [corrected_step_threshold], [use_stddev]. *)
Definition MLSSlope_assign (this other : Object V) : result (Object V) :=
  b <-- EnvironmentItem_assign (base this) (base other) ;;
  Ok (mkObject (dyn_class this) b
        (match members this, members other with
         | OperatorMembers _ (Some _), OperatorMembers o (Some s) =>
             OperatorMembers o (Some s)
         | m, _ => m
         end)).
End ItemProtocol.

(** ** Points in and out of a map (Core.hpp 560-613) *)

(** Modelled from the spec: [CartesianMap::getFrameNode], declared at
    Core.hpp 544 ("Returns the frame node on which this map is attached")
    with its body in the absent Core.cpp; spec, section 3: the attachment is
    kept in an environment-level map.  [None] is the null pointer. *)
Definition getFrameNode (e : Environment) (map : ptr) : option ptr :=
  cartesianMapGraph e !! map.

Section MapFrames.
Context {Transform Vector3d : Type}.

(** [Eigen]'s [transform * point]. *)
Variable transform_apply : Transform -> Vector3d -> Vector3d.

(** [from->relativeTransform(to)], declared at Core.hpp 318; the body is
    absent. *)
Variable relativeTransform : Environment -> ptr -> ptr -> Transform.

(** [frame->getRoot()], declared at Core.hpp 280; the body is absent. *)
Variable getRoot : Environment -> ptr -> ptr.

(** [toMap(point, frame)], Core.hpp 591-594.  A map without a frame node
    makes the call dereference a null pointer: [None]. *)
Definition toMap_from (e : Environment) (this : ptr) (point : Vector3d) (frame : ptr)
  : option Vector3d :=
  match getFrameNode e this with
  | Some fn => Some (transform_apply (relativeTransform e frame fn) point)
  | None => None
  end.

(** [toMap(point)], Core.hpp 582-585. *)
Definition toMap (e : Environment) (this : ptr) (point : Vector3d) : option Vector3d :=
  match getFrameNode e this with
  | Some fn => toMap_from e this point (getRoot e fn)
  | None => None
  end.

(** [fromMap(point)], Core.hpp 600-603. *)
Definition fromMap (e : Environment) (this : ptr) (point : Vector3d) : option Vector3d :=
  match getFrameNode e this with
  | Some fn => toMap_from e this point (getRoot e fn)
  | None => None
  end.

(** [fromMap(point, frame)], Core.hpp 609-612. *)
Definition fromMap_to (e : Environment) (this : ptr) (point : Vector3d) (frame : ptr)
  : option Vector3d :=
  match getFrameNode e this with
  | Some fn => Some (transform_apply (relativeTransform e fn frame) point)
  | None => None
  end.
End MapFrames.

(** ** The tool [env_grid_to_mls] (tools/env_grid_to_mls.cpp) *)

(** How the process ends: [exit(code)] or a return from [main], or an
    exception nobody catches, which ends the process through
    [std::terminate] and gives no exit code of the program's choosing. *)
Inductive Ending :=
| Exit (code : Z)
| Uncaught (e : exn).

Record Outcome := mkOutcome {
  cerr : list string;
  ending : Ending;
}.

Section Tool.
(** The state of the world the library calls act on, and the handles the
    tool holds. *)
Context {W Env Item Op : Type}.

(** A library call: it returns a value and a new world, or throws. *)
Definition call (A : Type) : Type := W -> result (A * W).

(** The calls [main] makes into Boost and the envire library, none of
    which is part of the tool's file. *)
Record Library := mkLibrary {
  lexical_cast_int : string -> result Z;
  Environment_unserialize : string -> call Env;
  getItem_GridBase : Env -> Z -> call Item;
  getItem_MLSGrid : Env -> Z -> call Item;
  new_GridFloatToMLS : call Op;
  Operator_setInput : Op -> Item -> call bool;
  Operator_setOutput : Op -> Item -> call bool;
  Environment_updateOperators : Env -> call unit;
  Environment_serialize : Env -> string -> call unit;
}.

Variable lib : Library.

Definition usage_text : string :=
  "usage: env_grid_to_mls <env_path> <grid_map_id> <mls_map_id>".

(** [usage(exit_code)], lines 11-16: prints and calls [exit].  The literal
    ends in a newline and [std::endl] adds one, so an empty line follows the
    text. *)
Definition usage (exit_code : Z) : Outcome :=
  mkOutcome [usage_text; ""] (Exit exit_code).

(** [argv[i]] *)
Definition arg (argv : list string) (i : nat) : string := nth i argv "".

(** Lines 26-39 of [main], reached with four arguments: the value [main]
    returns. *)
Definition main_body (argv : list string) (w : W) : result (Z * W) :=
  let env_path := arg argv 1 in
  grid_map_id <-- lexical_cast_int lib (arg argv 2) ;;
  mls_map_id <-- lexical_cast_int lib (arg argv 3) ;;
  r <-- Environment_unserialize lib env_path w ;;
  let '(env0, w) := r in
  r <-- getItem_GridBase lib env0 grid_map_id w ;;
  let '(input, w) := r in
  r <-- getItem_MLSGrid lib env0 mls_map_id w ;;
  let '(output, w) := r in
  r <-- new_GridFloatToMLS lib w ;;
  let '(op, w) := r in
  r <-- Operator_setInput lib op input w ;;
  let '(_, w) := r in
  r <-- Operator_setOutput lib op output w ;;
  let '(_, w) := r in
  r <-- Environment_updateOperators lib env0 w ;;
  let '(_, w) := r in
  r <-- Environment_serialize lib env0 env_path w ;;
  let '(_, w) := r in
  Ok (0, w).

(** [main], lines 18-40; [argc] is the length of [argv]. *)
Definition main (argv : list string) (w : W) : Outcome :=
  if bool_decide (length argv <> 4%nat)
  then
    let u := usage 1 in
    mkOutcome ("wrong number of arguments" :: cerr u) (ending u)
  else
    match main_body argv w with
    | Ok (code, _) => mkOutcome [] (Exit code)
    | Throw e => mkOutcome [] (Uncaught e)
    end.
End Tool.

(** ** Operations whose bodies are in the absent Core.cpp *)

(** The state the operations of the absent Core.cpp act on: the store and
    the environment object, which is at the address [this_env]. *)
Record World (V : Type) := mkWorld {
  mem : Memory V;
  this_env : ptr;
  environment : Environment;
}.
Arguments mkWorld {V} mem this_env environment.
Arguments mem {V} w.
Arguments this_env {V} w.
Arguments environment {V} w.

(** Modelled from the spec: the error kinds (section 7) these operations
    raise; their exception types and messages are in the absent Core.cpp. *)
Definition AlreadyAttached : exn := runtime_error "AlreadyAttached".
Definition IdCollision : exn := runtime_error "IdCollision".

(** Modelled from the spec: "the caller's id ends in [/]" (section 3). *)
Fixpoint ends_with_slash (id : string) : bool :=
  match id with
  | EmptyString => false
  | String c EmptyString => bool_decide (c = "/"%char)
  | String _ rest => ends_with_slash rest
  end.

(** Modelled from the spec: the "fresh monotonically increasing numeric
    suffix" (section 3), which Core.hpp 66-69 says makes the complete id
    unique without an exception: the first of the suffixes [n], [n+1], ...
    under which [id] is not yet bound; at most [fuel] bound ones are passed
    over. *)
Fixpoint fresh_suffix (fuel : nat) (id : string) (m : StdMap.t ptr) (n : Z) : Z :=
  match fuel with
  | O => n
  | S fuel' =>
      if StdMap.mem (id ++ pretty n) m
      then fresh_suffix fuel' id m (n + 1)
      else n
  end.

Definition set_items (m : StdMap.t ptr) (next : Z) (e : Environment) : Environment :=
  mkEnvironment next m (frameNodeTree e) (layerTree e)
    (operatorGraphInput e) (operatorGraphOutput e) (cartesianMapGraph e)
    (rootNode e) (envPrefix e).

Definition set_cartesianMapGraph (g : gmap ptr ptr) (e : Environment) : Environment :=
  mkEnvironment (last_id e) (items e) (frameNodeTree e) (layerTree e)
    (operatorGraphInput e) (operatorGraphOutput e) g
    (rootNode e) (envPrefix e).

Section Attach.
Context {V : Type}.

(** Modelled from the spec: the final id of an item attached under the id
    [id] and the value of the suffix counter afterwards (section 3, "Unique
    id"; the computation is in the absent Core.cpp): the
    environment prefix comes first; to an id that ends in a slash the next
    unused numeric suffix is appended; any other id is taken as it is and
    must be free. *)
Definition final_id (e : Environment) (id : string) : result (string * Z) :=
  let full := envPrefix e ++ id in
  if ends_with_slash id
  then
    let n := fresh_suffix (length (items e)) full (items e) (last_id e) in
    Ok (full ++ pretty n, n + 1)
  else if StdMap.mem full (items e) then Throw IdCollision
  else Ok (full, last_id e).

(** Modelled from the spec: [Environment::attachItem(EnvironmentItem* )],
    declared at Core.hpp 772 with its body in the absent Core.cpp.  Spec,
    section 4.1: fails with [AlreadyAttached] if the item is owned by an
    environment; computes the final id; inserts into the id map; the item
    then belongs to this environment.  The event bus is not modelled. *)
Definition attachItem (w : World V) (item : ptr) : result (World V) :=
  match mem w !! item with
  | None => Throw (other_exception "null item")
  | Some o =>
      match env (base o) with
      | Some _ => Throw AlreadyAttached
      | None =>
          r <-- final_id (environment w) (unique_id (base o)) ;;
          let '(id, next) := r in
          let o' := mkObject (dyn_class o)
                      (mkEnvironmentItem id (label (base o)) (Some (this_env w)))
                      (members o) in
          Ok (mkWorld (<[item := o']> (mem w)) (this_env w)
                (set_items (StdMap.insert id item (items (environment w))) next
                   (environment w)))
      end
  end.

(** Modelled from the spec: [Environment::setFrameNode], declared at
    Core.hpp 859; spec, section 4.3: establishes or changes a cartesian
    map's frame attachment. *)
Definition setFrameNode (w : World V) (map node : ptr) : World V :=
  mkWorld (mem w) (this_env w)
    (set_cartesianMapGraph (<[map := node]> (cartesianMapGraph (environment w)))
       (environment w)).

(** Modelled from the spec: [Environment::attachItem(CartesianMap*,
    FrameNode* node = 0)], declared at Core.hpp 774-778 with its body in the
    absent Core.cpp.  Spec, section 4.1: as [attachItem], then binds the map
    to the given frame, or to the root frame if omitted; the declaration's
    comment: the root node is used if the map does not yet have a frame node
    and none is given. *)
Definition attachItem_map (w : World V) (item : ptr) (node : option ptr)
  : result (World V) :=
  w' <-- attachItem w item ;;
  match node with
  | Some n => Ok (setFrameNode w' item n)
  | None =>
      match getFrameNode (environment w') item with
      | Some _ => Ok w'
      | None => Ok (setFrameNode w' item (rootNode (environment w')))
      end
  end.

(** The frame bindings are those of attached maps (spec, section 4.1:
    detaching removes the item from every membership map). *)
Definition frames_of_attached (w : World V) : Prop :=
  forall map node, cartesianMapGraph (environment w) !! map = Some node ->
    exists o, mem w !! map = Some o /\ env (base o) = Some (this_env w).
End Attach.

(** ** Typed access to the layers of an operator (Core.hpp 887-980) *)

Definition more_than_one_input : exn :=
  runtime_error "more than one input layer with the required type found".
Definition no_input : exn :=
  runtime_error "cannot find an input layer with the required type".
Definition more_than_one_output : exn :=
  runtime_error "more than one output layer with the required type found".
Definition no_output : exn :=
  runtime_error "cannot find an output layer with the required type".

Section OperatorLayers.
Context {V : Type}.

(** The loop of [getInput<LayerT>(op)], Core.hpp 892-902, and of
    [getOutput<LayerT>(op)], Core.hpp 926-936, which differ in the message
    of the exception only ([multiple]); [it] are the layers still to visit,
    [result0] is the current [result]. *)
Fixpoint getLayer_loop (multiple : exn) (LayerT : Class) (mem : Memory V)
    (it : list ptr) (result0 : option ptr) : result (option ptr) :=
  match it with
  | [] => Ok result0
  | p :: it' =>
      match dynamic_cast LayerT mem (Some p) with
      | Some layer =>
          match result0 with
          | Some _ => Throw multiple
          | None => getLayer_loop multiple LayerT mem it' (Some layer)
          end
      | None => getLayer_loop multiple LayerT mem it' result0
      end
  end.

(** [getInput<LayerT>(op)], Core.hpp 887-906; [inputs] is the list
    [getInputs(op)] returns, a function whose body is not embedded. *)
Definition getInput (LayerT : Class) (mem : Memory V) (inputs : list ptr) : result ptr :=
  r <-- getLayer_loop more_than_one_input LayerT mem inputs None ;;
  match r with
  | None => Throw no_input
  | Some p => Ok p
  end.

(** [getOutput<LayerT>(op)], Core.hpp 921-940; [outputs] is the list
    [getOutputs(op)] returns. *)
Definition getOutput (LayerT : Class) (mem : Memory V) (outputs : list ptr) : result ptr :=
  r <-- getLayer_loop more_than_one_output LayerT mem outputs None ;;
  match r with
  | None => Throw no_output
  | Some p => Ok p
  end.

(** The loop of [getGeneratedFrom<T>(input)], Core.hpp 973-978; [result0]
    is the list so far. *)
Fixpoint getGeneratedFrom_loop (T : Class) (mem : Memory V) (it : list ptr)
    (result0 : list ptr) : list ptr :=
  match it with
  | [] => result0
  | p :: it' =>
      match dynamic_cast T mem (Some p) with
      | Some as_T => getGeneratedFrom_loop T mem it' (result0 ++ [as_T])
      | None => getGeneratedFrom_loop T mem it' result0
      end
  end.

(** [getGeneratedFrom<T>(input)], Core.hpp 968-980; [all] is the list
    [getLayersGeneratedFrom(input)] returns, a function whose body is not
    embedded. *)
Definition getGeneratedFrom (T : Class) (mem : Memory V) (all : list ptr) : list ptr :=
  getGeneratedFrom_loop T mem all [].

(** Every pointer bound in the id map points to an object. *)
Definition items_live (mem : Memory V) (e : Environment) : Prop :=
  forall id p, In (id, p) (items e) -> is_Some (mem !! p).
End OperatorLayers.

(** The library [lib] with the booleans that [setInput] and [setOutput]
    return replaced by their images under [f]; everything else is the same. *)
Definition with_set_results {W Env Item Op : Type} (f : bool -> bool)
    (lib : @Library W Env Item Op) : @Library W Env Item Op :=
  mkLibrary (lexical_cast_int lib) (Environment_unserialize lib)
    (getItem_GridBase lib) (getItem_MLSGrid lib) (new_GridFloatToMLS lib)
    (fun op layer w =>
       r <-- Operator_setInput lib op layer w ;; Ok (f (fst r), snd r))
    (fun op layer w =>
       r <-- Operator_setOutput lib op layer w ;; Ok (f (fst r), snd r))
    (Environment_updateOperators lib) (Environment_serialize lib).

(** ** The geometry of the MLS visualization (viz/MLSVisualization.cpp) *)

(** A surface patch of a cell of the grid, with the members the
    visualization reads (the class is declared in a header that is not
    embedded). *)
Record SurfacePatch (double : Type) := mkSurfacePatch {
  mean : double;
  stdev : double;
  height : double;
  horizontal : bool;
}.
Arguments mkSurfacePatch {double} mean stdev height horizontal.
Arguments mean {double} s.
Arguments stdev {double} s.
Arguments height {double} s.
Arguments horizontal {double} s.

(** [osg::Vec3]: three [float]s. *)
Record Vec3 (float : Type) := mkVec3 {
  vec_x : float;
  vec_y : float;
  vec_z : float;
}.
Arguments mkVec3 {float} vec_x vec_y vec_z.
Arguments vec_x {float} v.
Arguments vec_y {float} v.
Arguments vec_z {float} v.

(** The three arrays [drawBox] appends to. *)
Record Quads (float Vec4 : Type) := mkQuads {
  quad_vertices : list (Vec3 float);
  quad_normals : list (Vec3 float);
  quad_colors : list Vec4;
}.
Arguments mkQuads {float Vec4} quad_vertices quad_normals quad_colors.
Arguments quad_vertices {float Vec4} q.
Arguments quad_normals {float Vec4} q.
Arguments quad_colors {float Vec4} q.

(** What the loops of [updateNode] build. *)
Record NodeGeometry (float Vec4 : Type) := mkNodeGeometry {
  quads : Quads float Vec4;
  var_vertices : list (Vec3 float);
  hor : Z;
}.
Arguments mkNodeGeometry {float Vec4} quads var_vertices hor.
Arguments quads {float Vec4} n.
Arguments var_vertices {float Vec4} n.
Arguments hor {float Vec4} n.

Section Visualization.
(** The arithmetic of [double] and [float] is not interpreted: the types,
    the operations, the two conversions, the value of a decimal literal and
    the conversion of a [size_t] are parameters. *)
Context {double float Vec4 : Type}.
Variable narrow : double -> float.
Variable widen : float -> double.
Variables add sub mul : double -> double -> double.
Variable gt : double -> double -> bool.
Variable lit : Q -> double.
Variable of_size_t : nat -> double.

(** [osg::Vec3(x, y, z)] from [double]s. *)
Definition Vec3_of (x y z : double) : Vec3 float :=
  mkVec3 (narrow x) (narrow y) (narrow z).

(** Four [vertices->push_back], then the loop that pushes the normal and
    the colour four times (lines 101-109 and the five blocks like it). *)
Definition push_face (q : Quads float Vec4) (v1 v2 v3 v4 normal : Vec3 float)
    (color : Vec4) : Quads float Vec4 :=
  mkQuads (quad_vertices q ++ [v1; v2; v3; v4])
    (quad_normals q ++ [normal; normal; normal; normal])
    (quad_colors q ++ [color; color; color; color]).

(** [drawBox], lines 91-163. *)
Definition drawBox (q : Quads float Vec4) (position extents : Vec3 float)
    (color : Vec4) : Quads float Vec4 :=
  let xp := widen (vec_x position) in
  let yp := widen (vec_y position) in
  let zp := widen (vec_z position) in
  let xs := widen (vec_x extents) in
  let ys := widen (vec_y extents) in
  let zs := widen (vec_z extents) in
  let xm := sub xp (mul xs (lit 0.5)) in
  let xM := add xp (mul xs (lit 0.5)) in
  let ym := sub yp (mul ys (lit 0.5)) in
  let yM := add yp (mul ys (lit 0.5)) in
  let zm := sub zp (mul zs (lit 0.5)) in
  let zM := add zp (mul zs (lit 0.5)) in
  let q := push_face q (Vec3_of xm ym zM) (Vec3_of xM ym zM) (Vec3_of xM yM zM)
             (Vec3_of xm yM zM) (Vec3_of (lit 0) (lit 0) (lit 1)) color in
  if gt zs (lit 0)
  then
    let q := push_face q (Vec3_of xm ym zM) (Vec3_of xM ym zM) (Vec3_of xM ym zm)
               (Vec3_of xm ym zm) (Vec3_of (lit 0) (lit (-1)) (lit 0)) color in
    let q := push_face q (Vec3_of xM ym zM) (Vec3_of xM yM zM) (Vec3_of xM yM zm)
               (Vec3_of xM ym zm) (Vec3_of (lit 1) (lit 0) (lit 0)) color in
    let q := push_face q (Vec3_of xM yM zM) (Vec3_of xm yM zM) (Vec3_of xm yM zm)
               (Vec3_of xM yM zm) (Vec3_of (lit 0) (lit 1) (lit 0)) color in
    let q := push_face q (Vec3_of xm yM zM) (Vec3_of xm ym zM) (Vec3_of xm ym zm)
               (Vec3_of xm yM zm) (Vec3_of (lit (-1)) (lit 0) (lit 0)) color in
    push_face q (Vec3_of xm ym zm) (Vec3_of xM ym zm) (Vec3_of xM yM zm)
      (Vec3_of xm yM zm) (Vec3_of (lit 0) (lit 0) (lit (-1))) color
  else q.

(** The grid as [updateNode] reads it: [getWidth], [getHeight],
    [getScaleX], [getScaleY] and the patches of a cell from [beginCell_const]
    to [endCell_const]. *)
Record Grid := mkGrid {
  getWidth : nat;
  getHeight : nat;
  getScaleX : double;
  getScaleY : double;
  cell : nat -> nat -> list (SurfacePatch double);
}.

(** The members of [MLSVisualization] the loops read (lines 13-16). *)
Record Style := mkStyle {
  horizontalCellColor : Vec4;
  verticalCellColor : Vec4;
  showUncertainty : bool;
}.

(** The body of the innermost loop of [updateNode], lines 197-223, for the
    patch [p] of the cell [(x, y)]. *)
Definition draw_patch (st : Style) (mls : Grid) (x y : nat)
    (n : NodeGeometry float Vec4) (p : SurfacePatch double) : NodeGeometry float Vec4 :=
  let xs := getScaleX mls in
  let ys := getScaleY mls in
  let xp := mul (add (of_size_t x) (lit 0.5)) xs in
  let yp := mul (add (of_size_t y) (lit 0.5)) ys in
  let n :=
    if horizontal p
    then mkNodeGeometry
           (drawBox (quads n) (Vec3_of xp yp (mean p)) (Vec3_of xs ys (lit 0))
              (horizontalCellColor st))
           (var_vertices n) (hor n + 1)
    else mkNodeGeometry
           (drawBox (quads n)
              (Vec3_of xp yp (sub (mean p) (mul (height p) (lit 0.5))))
              (Vec3_of xs ys (height p)) (verticalCellColor st))
           (var_vertices n) (hor n) in
  if showUncertainty st
  then
    let base := sub (mean p) (mul (height p) (lit 0.5)) in
    let half := add (mul (height p) (lit 0.5)) (stdev p) in
    mkNodeGeometry (quads n)
      (var_vertices n ++ [Vec3_of xp yp (add base half); Vec3_of xp yp (sub base half)])
      (hor n)
  else n.

(** The patches in the order the three nested loops of [updateNode] visit
    them (lines 191-195), each with its cell. *)
Definition visited (mls : Grid) : list (nat * nat * SurfacePatch double) :=
  x ← seq 0 (getWidth mls);
  y ← seq 0 (getHeight mls);
  (fun p => (x, y, p)) <$> cell mls x y.

(** The arrays [updateNode] hands to the scene graph, lines 179-226: the
    loops start from empty arrays.  The calls on the scene graph itself are
    not part of the model. *)
Definition updateNode_geometry (st : Style) (mls : Grid) : NodeGeometry float Vec4 :=
  fold_left (fun n xyp => draw_patch st mls (fst (fst xyp)) (snd (fst xyp)) n (snd xyp))
    (visited mls) (mkNodeGeometry (mkQuads [] [] []) [] 0).
(** How many vertices [drawBox] appends for a box of the extents [ext]. *)
Definition box_vertices (ext : Vec3 float) : nat :=
  if gt (widen (vec_z ext)) (lit 0) then 24%nat else 4%nat.

(** The extents [updateNode] passes to [drawBox] for a patch. *)
Definition patch_extents (mls : Grid) (p : SurfacePatch double) : Vec3 float :=
  if horizontal p
  then Vec3_of (getScaleX mls) (getScaleY mls) (lit 0)
  else Vec3_of (getScaleX mls) (getScaleY mls) (height p).

End Visualization.

(** ** Point clouds (maps/Pointcloud.cpp) *)

(** [Eigen::Vector3d]; [num] stands for the [double]s that are not NaN,
    which [<=] orders totally. *)
Record Vector3 (num : Type) := mkVector3 {
  vx : num;
  vy : num;
  vz : num;
}.
Arguments mkVector3 {num} vx vy vz.
Arguments vx {num} v.
Arguments vy {num} v.
Arguments vz {num} v.

(** [Eigen::AlignedBox<double, 3>], the type [Extents] of a three
    dimensional map (Core.hpp 573): its two corners. *)
Record AlignedBox (num : Type) := mkAlignedBox {
  box_min : Vector3 num;
  box_max : Vector3 num;
}.
Arguments mkAlignedBox {num} box_min box_max.
Arguments box_min {num} a.
Arguments box_max {num} a.

Section Extents.
Context {num : Type} (le : relation num) `{!RelDecision le}.

(** The largest and the smallest finite value, from which Eigen builds the
    empty box. *)
Variables highest lowest : num.

(** Eigen's coefficient-wise minimum and maximum of two numbers. *)
Definition num_min (a b : num) : num := if decide (le a b) then a else b.
Definition num_max (a b : num) : num := if decide (le b a) then a else b.

(** The box a default-constructed [Extents] is: Eigen's [setEmpty]. *)
Definition empty_box : AlignedBox num :=
  mkAlignedBox (mkVector3 highest highest highest) (mkVector3 lowest lowest lowest).

(** Eigen's [AlignedBox::extend(p)]: the minimum corner becomes the
    coefficient-wise minimum with [p], the maximum corner the maximum. *)
Definition extend (b : AlignedBox num) (p : Vector3 num) : AlignedBox num :=
  mkAlignedBox
    (mkVector3 (num_min (vx (box_min b)) (vx p)) (num_min (vy (box_min b)) (vy p))
       (num_min (vz (box_min b)) (vz p)))
    (mkVector3 (num_max (vx (box_max b)) (vx p)) (num_max (vy (box_max b)) (vy p))
       (num_max (vz (box_max b)) (vz p))).

(** [Pointcloud::getExtents], Pointcloud.cpp 165-174: the loop extends the
    empty box by each vertex in turn. *)
Definition getExtents (vertices : list (Vector3 num)) : AlignedBox num :=
  fold_left extend vertices empty_box.

(** Eigen's [AlignedBox::contains(p)]. *)
Definition contains (b : AlignedBox num) (p : Vector3 num) : Prop :=
  (le (vx (box_min b)) (vx p) /\ le (vx p) (vx (box_max b))) /\
  (le (vy (box_min b)) (vy p) /\ le (vy p) (vy (box_max b))) /\
  (le (vz (box_min b)) (vz p) /\ le (vz p) (vz (box_max b))).

(** Eigen's [AlignedBox::contains(b')]: the box [b'] lies inside [b]. *)
Definition contains_box (b b' : AlignedBox num) : Prop :=
  (le (vx (box_min b)) (vx (box_min b')) /\ le (vy (box_min b)) (vy (box_min b')) /\
   le (vz (box_min b)) (vz (box_min b'))) /\
  (le (vx (box_max b')) (vx (box_max b)) /\ le (vy (box_max b')) (vy (box_max b)) /\
   le (vz (box_max b')) (vz (box_max b))).

(** Two numbers compare equal. *)
Definition same (a b : num) : Prop := le a b /\ le b a.

(** Two boxes have corners that compare equal. *)
Definition same_box (b b' : AlignedBox num) : Prop :=
  (same (vx (box_min b)) (vx (box_min b')) /\ same (vy (box_min b)) (vy (box_min b')) /\
   same (vz (box_min b)) (vz (box_min b'))) /\
  (same (vx (box_max b)) (vx (box_max b')) /\ same (vy (box_max b)) (vy (box_max b')) /\
   same (vz (box_max b)) (vz (box_max b'))).

(** The coordinates of a point are finite. *)
Definition finite (p : Vector3 num) : Prop :=
  (le lowest (vx p) /\ le (vx p) highest) /\
  (le lowest (vy p) /\ le (vy p) highest) /\
  (le lowest (vz p) /\ le (vz p) highest).
End Extents.

(** ** Notions the properties are stated with *)



(** * Concrete environments *)

(** *** Two layers attached out of id order *)

Definition layer_object (id : string) : Object unit :=
  mkObject LayerClass (mkEnvironmentItem id "" (Some 100%positive))
    (LayerMembers (mkLayer false false [])).

(** The layer at address 1 is attached as "/b", then the layer at address 2
    as "/a". *)
Definition two_layers_history : list (string * ptr) :=
  [("/b", 1%positive); ("/a", 2%positive)].

Definition two_layers_mem : Memory unit :=
  <[1%positive := layer_object "/b"]> (<[2%positive := layer_object "/a"]> ∅).

Definition two_layers_env : Environment :=
  mkEnvironment 0 (StdMap.of_insertions two_layers_history) ∅ [] [] [] ∅
    3%positive "/".

(** A layer with an integer under "count": a [double] asked under "scale"
    is created, a [double] asked under "count" is a mismatch. *)
Definition layer_with_count : Layer Z :=
  mkLayer false false [("count", mkHolder "int" 7)].

(** *** Frames on a line *)

(** A root frame at address 1 and a frame at address 2 one unit along the
    axis; a map at address 5 sits on frame 2.  Transforms are translations
    of the integers. *)
Definition line_env : Environment :=
  mkEnvironment 0 [] {[ 2%positive := 1%positive ]} [] [] []
    {[ 5%positive := 2%positive ]} 1%positive "/".

Definition line_offset (frame : ptr) : Z :=
  if bool_decide (frame = 2%positive) then 1 else 0.

Definition line_relativeTransform (_ : Environment) (from to : ptr) : Z :=
  line_offset from - line_offset to.

Definition line_getRoot (_ : Environment) (_ : ptr) : ptr := 1%positive.

(** *** A slope operator and a subclass of it *)

(** MLSSlope.hpp 16-17: the operator "can be customized by subclassing". *)
Definition SteepSlopeClass : Class := Derived "SteepSlope" MLSSlopeClass.

Definition slope_object (c : Class) (threshold : Q) (stddev : bool) : Object unit :=
  mkObject c (mkEnvironmentItem "slope/" "" None)
    (OperatorMembers (mkOperator 1 1) (Some (mkMLSSlope threshold stddev))).

(** The receiver at address 1 is an [MLSSlope]; the object at address 2 is
    of the subclass; the one at 3 is a layer. *)
Definition slopes_mem : Memory unit :=
  <[1%positive := slope_object MLSSlopeClass (1 # 4) false]>
    (<[2%positive := slope_object SteepSlopeClass (1 # 2) true]>
       (<[3%positive := layer_object "/l"]> ∅)).

(** The base-class assignment that changes nothing of the receiver. *)
Definition keep_base (this other : EnvironmentItem) : result EnvironmentItem := Ok this.

(** *** A run on a directory that holds no environment *)

(** A library over a world without state: ids are decimal numerals within
    the range of a 32-bit [int], and loading the environment throws. *)
Definition numeral (s : string) : result Z :=
  match NilZero.int_of_string s with
  | Some d =>
      let z := Z.of_int d in
      if (-2147483648 <=? z) && (z <=? 2147483647) then Ok z else Throw bad_lexical_cast
  | None => Throw bad_lexical_cast
  end.

Definition no_environment : exn := runtime_error "failed to load the environment".

Definition missing_env_library : @Library unit unit unit unit :=
  mkLibrary numeral
    (fun _ _ => Throw no_environment)
    (fun _ _ w => Ok (tt, w)) (fun _ _ w => Ok (tt, w))
    (fun w => Ok (tt, w))
    (fun _ _ w => Ok (true, w)) (fun _ _ w => Ok (true, w))
    (fun _ w => Ok (tt, w)) (fun _ _ w => Ok (tt, w)).

(** *** Scenario 3 of the spec: two items with the id "foo/" *)

Definition unattached_map (id : string) : Object unit :=
  mkObject PointcloudClass (mkEnvironmentItem id "" None)
    (LayerMembers (mkLayer false false [])).

(** An environment at address 100 with the prefix "/", nothing attached and
    the suffix counter at 1; the objects at 10 and 11 are maps with the id
    "foo/" that belong to no environment. *)
Definition foo_world : World unit :=
  mkWorld
    (<[10%positive := unattached_map "foo/"]>
       (<[11%positive := unattached_map "foo/"]> ∅))
    100%positive
    (mkEnvironment 1 [] ∅ [] [] [] ∅ 1%positive "/").

(** *** Three operators, one feeding another *)

Definition attached_layer (id : string) (is_dirty : bool) : Object unit :=
  mkObject LayerClass (mkEnvironmentItem id "" (Some 100%positive))
    (LayerMembers (mkLayer false is_dirty [])).

Definition attached_operator (id : string) : Object unit :=
  mkObject MLSSlopeClass (mkEnvironmentItem id "" (Some 100%positive))
    (OperatorMembers (mkOperator 1 1) (Some (mkMLSSlope (1 # 4) false))).

(** The operators 20, 21, 22 write the layers 30, 31, 32; operator 20 reads
    layer 31, which operator 21 writes; 21 and 22 read the layer 33.  The
    layers 30 and 31 are dirty. *)
Definition chain_world : World unit :=
  mkWorld
    (<[20%positive := attached_operator "/op/1"]>
       (<[21%positive := attached_operator "/op/2"]>
          (<[22%positive := attached_operator "/op/3"]>
             (<[30%positive := attached_layer "/slope" true]>
                (<[31%positive := attached_layer "/mls" true]>
                   (<[32%positive := attached_layer "/other" false]>
                      (<[33%positive := attached_layer "/raw" false]> ∅)))))))
    100%positive
    (mkEnvironment 4
       (StdMap.of_insertions
          [("/raw", 33%positive); ("/mls", 31%positive); ("/slope", 30%positive);
           ("/other", 32%positive); ("/op/1", 20%positive); ("/op/2", 21%positive);
           ("/op/3", 22%positive)])
       ∅ []
       [(20%positive, 31%positive); (21%positive, 33%positive); (22%positive, 33%positive)]
       [(20%positive, 30%positive); (21%positive, 31%positive); (22%positive, 32%positive)]
       ∅ 1%positive "/").

(** *** A grid of one cell, over the rationals *)




(** *** A point cloud with integer coordinates *)

Definition two_vertices : list (Vector3 Z) := [mkVector3 1 5 0; mkVector3 3 2 0].

Definition room : AlignedBox Z := mkAlignedBox (mkVector3 0 0 0) (mkVector3 10 10 10).

(** * Properties *)

(** ** [StdMap] *)

Lemma compare_refl (k : string) : String_as_OT.compare k k = Eq.
Proof.
  destruct (String_as_OT.compare_spec k k) as [_ | H | H]; [reflexivity | |];
    exfalso; exact (StrictOrder_Irreflexive k H).
Qed.

Lemma compare_Eq (k k' : string) : String_as_OT.compare k k' = Eq -> k = k'.
Proof.
  intros H. destruct (String_as_OT.compare_spec k k'); congruence.
Qed.

Lemma compare_Lt_ne (k k' : string) : String_as_OT.compare k k' = Lt -> k <> k'.
Proof. intros H ->. rewrite compare_refl in H. discriminate. Qed.

Lemma compare_Gt (k k' : string) :
  String_as_OT.compare k k' = Gt -> String_as_OT.lt k' k /\ k <> k'.
Proof.
  intros H. split.
  - destruct (String_as_OT.compare_spec k k'); congruence.
  - intros ->. rewrite compare_refl in H. discriminate.
Qed.

Lemma eqb_false (k k' : string) : k <> k' -> String.eqb k k' = false.
Proof. apply String.eqb_neq. Qed.

Lemma find_insert_eq {V : Type} (k : string) (v : V) (m : StdMap.t V) :
  StdMap.find k (StdMap.insert k v m) = Some v.
Proof.
  induction m as [| [k' v'] m IH]; simpl.
  - now rewrite String.eqb_refl.
  - destruct (String_as_OT.compare k k') eqn:E; simpl.
    + now rewrite String.eqb_refl.
    + now rewrite String.eqb_refl.
    + apply compare_Gt in E as [_ E]. now rewrite (eqb_false _ _ E).
Qed.

Lemma find_insert_ne {V : Type} (k k0 : string) (v : V) (m : StdMap.t V) :
  k <> k0 -> StdMap.find k0 (StdMap.insert k v m) = StdMap.find k0 m.
Proof.
  intros Hne. assert (Hne' : k0 <> k) by congruence.
  induction m as [| [k' v'] m IH]; simpl.
  - now rewrite (eqb_false _ _ Hne').
  - destruct (String_as_OT.compare k k') eqn:E; simpl.
    + apply compare_Eq in E as <-. now rewrite !(eqb_false _ _ Hne').
    + now rewrite (eqb_false _ _ Hne').
    + now rewrite IH.
Qed.

Lemma keys_insert {V : Type} (k k0 : string) (v : V) (m : StdMap.t V) :
  In k0 (StdMap.keys (StdMap.insert k v m)) <-> k0 = k \/ In k0 (StdMap.keys m).
Proof.
  unfold StdMap.keys. induction m as [| [k' v'] m IH]; simpl.
  - intuition.
  - destruct (String_as_OT.compare k k') eqn:E; simpl.
    + apply compare_Eq in E as <-. intuition.
    + intuition.
    + rewrite IH. intuition.
Qed.

Lemma insert_ordered {V : Type} (k : string) (v : V) (m : StdMap.t V) :
  StdMap.ordered m -> StdMap.ordered (StdMap.insert k v m).
Proof.
  unfold StdMap.ordered. induction m as [| [k' v'] m IH]; simpl; intros Hs.
  - repeat constructor.
  - apply StronglySorted_inv in Hs as [Hs Hall]. simpl in *.
    destruct (String_as_OT.compare k k') eqn:E; simpl.
    + apply compare_Eq in E as <-. now constructor.
    + assert (Hlt : String_as_OT.lt k k') by exact E.
      constructor; [now constructor |].
      constructor; [exact Hlt |].
      eapply List.Forall_impl; [| exact Hall]. cbv beta.
      intros a Ha. exact (StrictOrder_Transitive _ _ _ Hlt Ha).
    + apply compare_Gt in E as [Hlt _].
      constructor; [now apply IH |].
      apply List.Forall_forall. intros a Ha.
      apply (keys_insert k a v m) in Ha as [-> | Ha]; [exact Hlt |].
      rewrite List.Forall_forall in Hall. now apply Hall.
Qed.

Lemma of_insertions_ordered {V : Type} (h : list (string * V)) :
  StdMap.ordered (StdMap.of_insertions h).
Proof.
  unfold StdMap.of_insertions.
  assert (G : forall m : StdMap.t V, StdMap.ordered m ->
    StdMap.ordered (fold_left (fun m kv => StdMap.insert (fst kv) (snd kv) m) h m)).
  { induction h as [| kv h IH]; simpl; intros m Hm; [exact Hm |].
    apply IH. now apply insert_ordered. }
  apply G. constructor.
Qed.

Lemma find_None_keys {V : Type} (k : string) (m : StdMap.t V) :
  StdMap.find k m = None <-> ~ In k (StdMap.keys m).
Proof.
  unfold StdMap.keys. induction m as [| [k' v'] m IH]; simpl.
  - intuition.
  - destruct (String.eqb_spec k k') as [-> | Hne].
    + split; [discriminate | intros H; exfalso; apply H; now left].
    + rewrite IH. intuition congruence.
Qed.

Lemma find_ordered {V : Type} (k : string) (v : V) (m : StdMap.t V) :
  StdMap.ordered m -> In (k, v) m <-> StdMap.find k m = Some v.
Proof.
  unfold StdMap.ordered, StdMap.keys.
  induction m as [| [k' v'] m IH]; simpl; intros Hs.
  - split; [tauto | discriminate].
  - apply StronglySorted_inv in Hs as [Hs Hall]. simpl in Hall.
    destruct (String.eqb_spec k k') as [-> | Hne].
    + split.
      * intros [H | H]; [congruence |].
        exfalso. rewrite List.Forall_forall in Hall.
        apply (StrictOrder_Irreflexive k'). apply Hall.
        apply (in_map fst) in H. exact H.
      * intros [= ->]. now left.
    + rewrite <- (IH Hs). split; [| tauto].
      intros [H | H]; [congruence | exact H].
Qed.

(** ** Typed lookup *)

Section RegistryFacts.
Context {V : Type}.
Implicit Types (mem : Memory V) (e : Environment) (T : Class).

Lemma dynamic_cast_Some T mem p q :
  dynamic_cast T mem (Some p) = Some q -> q = p.
Proof.
  unfold dynamic_cast. destruct (mem !! p) as [o |]; [| discriminate].
  destruct (is_a (dyn_class o) T); congruence.
Qed.

Lemma dynamic_cast_has_type T mem p :
  dynamic_cast T mem (Some p) = if has_type T mem p then Some p else None.
Proof.
  unfold has_type. destruct (dynamic_cast T mem (Some p)) as [q |] eqn:E; [| reflexivity].
  now apply dynamic_cast_Some in E as ->.
Qed.

(** The loop of [getItem<T>()] in terms of the matching bindings still to
    come. *)
Lemma getItem_loop_filter T mem (it : list (string * ptr)) (r : option ptr) :
  getItem_loop T mem it r =
  match r, map snd (filter (fun kv => has_type T mem (snd kv) = true) it) with
  | None, [] => Ok None
  | None, [p] => Ok (Some p)
  | None, _ :: _ :: _ => Throw Ambiguous
  | Some x, [] => Ok (Some x)
  | Some _, _ :: _ => Throw Ambiguous
  end.
Proof.
  revert r. induction it as [| [id p] it IH]; intros r; cbn [getItem_loop].
  - now destruct r.
  - rewrite dynamic_cast_has_type, filter_cons. cbn [snd].
    destruct (has_type T mem p) eqn:E.
    + rewrite decide_True by reflexivity. cbn [map snd].
      destruct r as [x |]; [reflexivity |].
      rewrite IH.
      now destruct (map snd (filter (fun kv => has_type T mem (snd kv) = true) it)).
    + rewrite decide_False by discriminate. apply IH.
Qed.

Lemma getItem_typed_items T mem e :
  getItem T mem e =
  match typed_items T mem e with
  | [] => Throw NotFound
  | [p] => Ok p
  | _ :: _ :: _ => Throw Ambiguous
  end.
Proof.
  unfold getItem, typed_items, typed_bindings. rewrite getItem_loop_filter.
  destruct (map snd (filter (fun kv => has_type T mem (snd kv) = true) (items e)))
    as [| p [| q l]]; reflexivity.
Qed.

(** C3.  The singleton lookup [getItem<T>()] throws the "multiple" error
    ([Ambiguous]) when more than one binding of the id map holds an item of
    type [T], throws the "no maps" error ([NotFound]) when none does, and
    returns the item when exactly one does. *)
Theorem getItem_singleton T mem e :
  ((1 < length (typed_items T mem e))%nat -> getItem T mem e = Throw Ambiguous) /\
  (typed_items T mem e = [] -> getItem T mem e = Throw NotFound) /\
  (forall p, typed_items T mem e = [p] -> getItem T mem e = Ok p).
Proof.
  rewrite getItem_typed_items.
  destruct (typed_items T mem e) as [| p [| q l]]; simpl; repeat split;
    try (intros; (lia || congruence || discriminate)).
Qed.

Lemma getItems_loop_filter T mem (it : list (string * ptr)) (acc : list ptr) :
  getItems_loop T mem it acc =
  (acc ++ map snd (filter (fun kv => has_type T mem (snd kv) = true) it))%list.
Proof.
  revert acc. induction it as [| [id p] it IH]; intros acc; cbn [getItems_loop].
  - cbn. now rewrite app_nil_r.
  - rewrite dynamic_cast_has_type, filter_cons. cbn [snd].
    destruct (has_type T mem p) eqn:E.
    + rewrite decide_True by reflexivity. rewrite IH. cbn [map snd].
      now rewrite <- app_assoc.
    + rewrite decide_False by discriminate. apply IH.
Qed.

Lemma getItems_typed_items T mem e : getItems T mem e = typed_items T mem e.
Proof. unfold getItems. now rewrite getItems_loop_filter. Qed.

Lemma typed_bindings_sorted T mem e :
  StdMap.ordered (items e) ->
  StronglySorted String_as_OT.lt (map fst (typed_bindings T mem e)).
Proof.
  unfold StdMap.ordered, StdMap.keys, typed_bindings.
  induction (items e) as [| [id p] it IH]; simpl; intros Hs.
  - constructor.
  - apply StronglySorted_inv in Hs as [Hs Hall].
    rewrite filter_cons. simpl. case_decide; [| now apply IH].
    simpl. constructor; [now apply IH |].
    rewrite List.Forall_forall in *. intros a Ha. apply Hall.
    apply in_map_iff in Ha as [[a' q] [<- Ha]].
    apply list_elem_of_In, list_elem_of_filter in Ha as [_ Ha].
    apply list_elem_of_In in Ha. apply (in_map fst) in Ha. exact Ha.
Qed.

(** C6, amended.  [getItems<T>()] returns exactly the attached items of
    type [T], and lists them by ascending unique id: the order in which the
    id map is iterated, whatever the order of attachment was. *)
Theorem getItems_ascending_ids T mem e :
  StdMap.ordered (items e) ->
  (forall p, p ∈ getItems T mem e <-> attached e p /\ has_type T mem p = true) /\
  exists ids : list string,
    StronglySorted String_as_OT.lt ids /\
    Forall2 (fun id p => StdMap.find id (items e) = Some p) ids (getItems T mem e).
Proof.
  intros Hord. rewrite getItems_typed_items. unfold typed_items. split.
  - intros p. unfold attached, typed_bindings. rewrite list_elem_of_fmap. split.
    + intros [[id q] [-> Hin]]. apply list_elem_of_filter in Hin as [Ht Hin].
      split; [| exact Ht]. exists id. apply find_ordered; [exact Hord |].
      now apply list_elem_of_In.
    + intros [[id Hid] Ht]. exists (id, p). split; [reflexivity |].
      apply list_elem_of_filter. split; [exact Ht |].
      apply list_elem_of_In. now apply find_ordered.
  - exists (map fst (typed_bindings T mem e)). split.
    + now apply typed_bindings_sorted.
    + assert (Hsub : forall kv, kv ∈ typed_bindings T mem e ->
                StdMap.find (fst kv) (items e) = Some (snd kv)).
      { intros [id p] Hin. apply list_elem_of_filter in Hin as [_ Hin].
        apply find_ordered; [exact Hord |]. now apply list_elem_of_In. }
      induction (typed_bindings T mem e) as [| kv l IH]; simpl; constructor.
      * apply Hsub. now left.
      * apply IH. intros kv' Hin. apply Hsub. now right.
Qed.
End RegistryFacts.

Example is_a_examples :
  is_a SteepSlopeClass MLSSlopeClass = true /\
  is_a MLSSlopeClass SteepSlopeClass = false /\
  is_a PointcloudClass LayerClass = true /\
  is_a LayerClass OperatorClass = false.
Proof. repeat split. Qed.

Example getItem_examples :
  getItem LayerClass two_layers_mem two_layers_env = Throw Ambiguous /\
  getItem OperatorClass two_layers_mem two_layers_env = Throw NotFound /\
  getItem (MapClass 3) (mem chain_world) (environment chain_world) = Throw NotFound /\
  getItems OperatorClass (mem chain_world) (environment chain_world)
    = [20%positive; 21%positive; 22%positive] /\
  getItems LayerClass (mem chain_world) (environment chain_world)
    = [31%positive; 32%positive; 33%positive; 30%positive].
Proof. vm_compute. repeat split. Qed.

(** C6 as the spec states it, insertion order, fails: after the bindings of
    a history [h] were inserted in turn, [getItems<T>()] would have to list
    the items of type [T] in the order of [h].  The two layers above come
    back as 2, 1. *)
Lemma getItems_not_insertion_order :
  ~ (forall (T : Class) (mem : Memory unit) (e : Environment) (h : list (string * ptr)),
       NoDup (map fst h) ->
       items e = StdMap.of_insertions h ->
       getItems T mem e = filter (fun p => has_type T mem p = true) (map snd h)).
Proof.
  intros H.
  specialize (H LayerClass two_layers_mem two_layers_env two_layers_history).
  assert (Hnd : NoDup (map fst two_layers_history)).
  { cbn. apply NoDup_cons. split; [| apply NoDup_singleton].
    intros Hin. apply list_elem_of_singleton in Hin. discriminate Hin. }
  specialize (H Hnd eq_refl). vm_compute in H. discriminate H.
Qed.

Lemma getItems_ascending_ids_witness :
  StdMap.ordered (items two_layers_env) /\
  ((forall p, p ∈ getItems LayerClass two_layers_mem two_layers_env <->
      attached two_layers_env p /\ has_type LayerClass two_layers_mem p = true) /\
   exists ids : list string,
     StronglySorted String_as_OT.lt ids /\
     Forall2 (fun id p => StdMap.find id (items two_layers_env) = Some p) ids
       (getItems LayerClass two_layers_mem two_layers_env)).
Proof.
  assert (H : StdMap.ordered (items two_layers_env)).
  { vm_compute. repeat constructor. }
  split; [exact H |].
  exact (getItems_ascending_ids LayerClass two_layers_mem two_layers_env H).
Defined.

(** ** Layer metadata *)

Section LayerDataFacts.
Context {V : Type} (default_construct : type_info -> V).

Lemma mem_find {A : Type} (k : string) (m : StdMap.t A) :
  StdMap.mem k m = match StdMap.find k m with Some _ => true | None => false end.
Proof. reflexivity. Qed.

(** C2.  The non-const [getData<T>(key)]: when the layer has no metadata
    under the key, a holder of a default-constructed [T] is created under it
    (the other keys keep their holders) and its value is returned; when the
    key has a holder that reports another type than [T], the call fails with
    [TypeMismatch] and the layer is as before. *)
Theorem getData_creates_or_mismatch (T : type_info) (type : string) (this : Layer V) :
  (StdMap.find type (data_map this) = None ->
   exists this',
     getData default_construct T type this = (Ok (default_construct T), this') /\
     StdMap.find type (data_map this') = Some (new_Holder default_construct T) /\
     (forall k, k <> type ->
        StdMap.find k (data_map this') = StdMap.find k (data_map this)) /\
     immutable this' = immutable this /\ dirty this' = dirty this) /\
  (forall h, StdMap.find type (data_map this) = Some h -> held_type h <> T ->
     getData default_construct T type this = (Throw TypeMismatch, this)).
Proof.
  split.
  - intros Hnone. eexists. unfold getData, hasData. rewrite mem_find, Hnone.
    cbn [negb data_map set_data_map]. rewrite find_insert_eq.
    unfold Holder_get, isOfType, new_Holder. cbn [held_type held].
    rewrite bool_decide_eq_true_2 by reflexivity.
    split; [reflexivity |]. cbn [data_map immutable dirty].
    split; [apply find_insert_eq |].
    split; [| split; reflexivity].
    intros k Hk. apply find_insert_ne. congruence.
  - intros h Hsome Hty. unfold getData, hasData. rewrite mem_find, Hsome.
    cbn [negb]. rewrite Hsome. unfold Holder_get, isOfType.
    now rewrite bool_decide_eq_false_2.
Qed.

(** The null branch in the model of [getData] is never taken. *)
Lemma getData_holder_present (T : type_info) (type : string) (this : Layer V) :
  fst (getData default_construct T type this) <> Throw null_holder.
Proof.
  unfold getData, hasData. rewrite mem_find.
  destruct (StdMap.find type (data_map this)) as [h |] eqn:E; cbn [negb].
  - rewrite E. unfold Holder_get. destruct (isOfType T h); discriminate.
  - cbn [data_map set_data_map]. rewrite find_insert_eq. unfold Holder_get.
    destruct (isOfType T _); discriminate.
Qed.
End LayerDataFacts.

Lemma getData_creates_or_mismatch_witness :
  (exists this',
     getData (fun _ => 0) "double" "scale" layer_with_count = (Ok 0, this') /\
     StdMap.find "scale" (data_map this') = Some (new_Holder (fun _ => 0) "double") /\
     (forall k, k <> "scale" ->
        StdMap.find k (data_map this') = StdMap.find k (data_map layer_with_count)) /\
     immutable this' = immutable layer_with_count /\
     dirty this' = dirty layer_with_count) /\
  getData (fun _ => 0) "double" "count" layer_with_count
    = (Throw TypeMismatch, layer_with_count).
Proof.
  split.
  - apply (getData_creates_or_mismatch (fun _ => 0) "double" "scale" layer_with_count).
    reflexivity.
  - apply (getData_creates_or_mismatch (fun _ => 0) "double" "count" layer_with_count)
      with (h := mkHolder "int" 7); [reflexivity | discriminate].
Defined.

(** ** Points in and out of a map *)

Section MapFramesFacts.
Context {Transform Vector3d : Type}.
Variable transform_apply : Transform -> Vector3d -> Vector3d.
Variable relativeTransform : Environment -> ptr -> ptr -> Transform.
Variable getRoot : Environment -> ptr -> ptr.

(** C9.  The one-argument [fromMap(p)] and [toMap(p)] return the same
    value: each is the two-argument [toMap] at the root of the map's frame,
    that is the transform from the root frame to the map's frame applied to
    [p].  So [fromMap] after [toMap] applies that transform twice instead of
    undoing it. *)
Theorem fromMap_is_toMap (e : Environment) (this : ptr) (p : Vector3d) :
  fromMap transform_apply relativeTransform getRoot e this p
    = toMap transform_apply relativeTransform getRoot e this p /\
  (forall fn, getFrameNode e this = Some fn ->
     toMap transform_apply relativeTransform getRoot e this p
       = toMap_from transform_apply relativeTransform e this p (getRoot e fn) /\
     fromMap transform_apply relativeTransform getRoot e this p
       = toMap_from transform_apply relativeTransform e this p (getRoot e fn) /\
     forall q, toMap transform_apply relativeTransform getRoot e this p = Some q ->
       fromMap transform_apply relativeTransform getRoot e this q
         = Some (transform_apply (relativeTransform e (getRoot e fn) fn)
                   (transform_apply (relativeTransform e (getRoot e fn) fn) p))).
Proof.
  split; [reflexivity |].
  intros fn Hfn. unfold toMap, fromMap, toMap_from. rewrite Hfn.
  repeat split. intros q [= <-]. reflexivity.
Qed.
End MapFramesFacts.

(** On the line, [fromMap(toMap(p))] is not [p], while the two-argument
    [fromMap] at the root frame does undo [toMap]. *)
Lemma fromMap_not_inverse_on_line :
  toMap Z.add line_relativeTransform line_getRoot line_env 5%positive 10 = Some 9 /\
  fromMap Z.add line_relativeTransform line_getRoot line_env 5%positive 9 = Some 8 /\
  fromMap_to Z.add line_relativeTransform line_env 5%positive 9 1%positive = Some 10.
Proof. repeat split. Qed.

(** ** The item protocol *)

Section ItemProtocolFacts.
Context {V : Type}.

(** C10, amended.  [set(other)] of a class generated by [ENVIRONMENT_ITEM]
    leaves the store, and so the receiver, as it is and raises no error when
    [other] is not an object of the item's class or of a class derived from
    it (a null [other] included): the assignment is not reached, whatever it
    would do. *)
Theorem set_unrelated_class_unchanged (_classname : Class)
    (assign : Object V -> Object V -> result (Object V))
    (mem : Memory V) (this : ptr) (other : option ptr) :
  (forall fn o, other = Some fn -> mem !! fn = Some o ->
     is_a (dyn_class o) _classname = false) ->
  set _classname assign mem this other = Ok mem.
Proof.
  intros H. unfold set, dynamic_cast.
  destruct other as [fn |]; [| reflexivity].
  destruct (mem !! fn) as [o |] eqn:E; [| reflexivity].
  now rewrite (H fn o eq_refl E).
Qed.
End ItemProtocolFacts.

(** C10 as stated fails: [other]'s dynamic class [SteepSlope] is not the
    item's class [MLSSlope], yet the cast succeeds, the assignment runs and
    the receiver's [use_stddev] changes. *)
Lemma set_subclass_changes_receiver :
  ~ (forall (_classname : Class) (assign : Object unit -> Object unit -> result (Object unit))
       (mem : Memory unit) (this fn : ptr) (o : Object unit),
       mem !! fn = Some o -> dyn_class o <> _classname ->
       set _classname assign mem this (Some fn) = Ok mem).
Proof.
  intros H.
  specialize (H MLSSlopeClass (MLSSlope_assign keep_base) slopes_mem
                1%positive 2%positive (slope_object SteepSlopeClass (1 # 2) true)
                eq_refl).
  assert (Hne : dyn_class (slope_object SteepSlopeClass (1 # 2) true) <> MLSSlopeClass)
    by discriminate.
  specialize (H Hne).
  assert (Hl : forall m, set MLSSlopeClass (MLSSlope_assign keep_base) slopes_mem
                 1%positive (Some 2%positive) = Ok m ->
               m !! 1%positive = Some (slope_object MLSSlopeClass (1 # 2) true)).
  { intros m Hm. vm_compute in Hm. injection Hm as <-. reflexivity. }
  specialize (Hl _ H). vm_compute in Hl. discriminate Hl.
Qed.

Lemma set_unrelated_class_unchanged_witness :
  (forall fn o, Some 3%positive = Some fn -> slopes_mem !! fn = Some o ->
     is_a (dyn_class o) MLSSlopeClass = false) /\
  set MLSSlopeClass (MLSSlope_assign keep_base) slopes_mem 1%positive (Some 3%positive)
    = Ok slopes_mem.
Proof.
  assert (H : forall fn o, Some 3%positive = Some fn -> slopes_mem !! fn = Some o ->
                is_a (dyn_class o) MLSSlopeClass = false).
  { intros fn o [= <-] Ho. vm_compute in Ho. injection Ho as <-. reflexivity. }
  split; [exact H |].
  exact (set_unrelated_class_unchanged MLSSlopeClass (MLSSlope_assign keep_base)
           slopes_mem 1%positive (Some 3%positive) H).
Defined.

(** ** The tool [env_grid_to_mls] *)

Section ToolFacts.
Context {W Env Item Op : Type}.
Variable lib : @Library W Env Item Op.


End ToolFacts.


(** An id that is not an integer is an argument error that does not exit
    with code 1 either. *)
Lemma main_bad_id_not_1 :
  ending (main missing_env_library ["env_grid_to_mls"; "/tmp/env"; "grid"; "2"] tt)
    = Uncaught bad_lexical_cast.
Proof. reflexivity. Qed.

(** ** Attaching items *)

Lemma append_inj_l (s a b : string) : s ++ a = s ++ b -> a = b.
Proof. induction s as [| c s IH]; simpl; [tauto |]. intros [= H]. now apply IH. Qed.

Lemma suffixed_inj (id : string) (n n' : Z) :
  id ++ pretty n = id ++ pretty n' -> n = n'.
Proof. intros H. apply append_inj_l in H. exact (pretty_Z_inj _ _ H). Qed.

Lemma mem_keys {A : Type} (k : string) (m : StdMap.t A) :
  StdMap.mem k m = true <-> In k (StdMap.keys m).
Proof.
  unfold StdMap.mem. pose proof (find_None_keys k m) as H.
  destruct (StdMap.find k m); split.
  - intros _. destruct (in_dec string_dec k (StdMap.keys m)) as [Hin | Hin]; [exact Hin |].
    apply H in Hin. discriminate.
  - reflexivity.
  - discriminate.
  - intros Hin. exfalso. now apply H.
Qed.

Lemma fresh_suffix_bounds (fuel : nat) (id : string) (m : StdMap.t ptr) (n : Z) :
  n <= fresh_suffix fuel id m n <= n + Z.of_nat fuel /\
  (forall k, n <= k < fresh_suffix fuel id m n -> StdMap.mem (id ++ pretty k) m = true) /\
  (fresh_suffix fuel id m n < n + Z.of_nat fuel ->
   StdMap.mem (id ++ pretty (fresh_suffix fuel id m n)) m = false).
Proof.
  revert n. induction fuel as [| fuel IH]; intros n; cbn [fresh_suffix].
  - repeat split; lia.
  - destruct (StdMap.mem (id ++ pretty n) m) eqn:E.
    + destruct (IH (n + 1)) as (Hb & Hall & Hfree).
      split; [lia |]. split.
      * intros k Hk. destruct (decide (k = n)) as [-> | Hne]; [exact E |].
        apply Hall. lia.
      * intros Hlt. apply Hfree. lia.
    + split; [lia |]. split; [intros k Hk; lia | intros _; exact E].
Qed.

(** The suffix found is free: were all of [length m + 1] candidates bound,
    the map would hold more keys than it has bindings. *)
Lemma fresh_suffix_free (id : string) (m : StdMap.t ptr) (n : Z) :
  StdMap.find (id ++ pretty (fresh_suffix (length m) id m n)) m = None.
Proof.
  destruct (fresh_suffix_bounds (length m) id m n) as (Hb & Hall & Hfree).
  set (r := fresh_suffix (length m) id m n) in *.
  destruct (StdMap.mem (id ++ pretty r) m) eqn:E.
  2:{ unfold StdMap.mem in E. now destruct (StdMap.find (id ++ pretty r) m). }
  exfalso.
  assert (Hr : r = n + Z.of_nat (length m)).
  { destruct (decide (r < n + Z.of_nat (length m))) as [Hlt | Hge]; [| lia].
    specialize (Hfree Hlt). congruence. }
  set (cands := map (fun i : nat => id ++ pretty (n + Z.of_nat i)) (seq 0 (S (length m)))).
  assert (Hnd : NoDup cands).
  { assert (Hinj : Inj eq eq (fun i : nat => id ++ pretty (n + Z.of_nat i))).
    { intros i j Hij. apply suffixed_inj in Hij. lia. }
    apply (NoDup_fmap_2 _). apply NoDup_seq. }
  assert (Hincl : incl cands (StdMap.keys m)).
  { intros k Hk. apply in_map_iff in Hk as (i & <- & Hi). apply in_seq in Hi.
    apply mem_keys.
    destruct (decide (Z.of_nat i = Z.of_nat (length m))) as [Heq | Hne].
    - rewrite Heq, <- Hr. exact E.
    - apply Hall. lia. }
  apply NoDup_incl_length in Hincl; [| apply NoDup_ListNoDup; exact Hnd].
  unfold cands, StdMap.keys in Hincl.
  rewrite !length_map, length_seq in Hincl. lia.
Qed.

Section AttachFacts.
Context {V : Type}.
Implicit Types (w : World V) (item : ptr) (o : Object V).

(** What [attachItem] does to an unattached item whose id ends in a slash. *)
Lemma attachItem_slash w item o :
  mem w !! item = Some o -> env (base o) = None ->
  ends_with_slash (unique_id (base o)) = true ->
  let e := environment w in
  let full := envPrefix e ++ unique_id (base o) in
  let n := fresh_suffix (length (items e)) full (items e) (last_id e) in
  attachItem w item =
    Ok (mkWorld
          (<[item := mkObject (dyn_class o)
                       (mkEnvironmentItem (full ++ pretty n) (label (base o))
                          (Some (this_env w)))
                       (members o)]> (mem w))
          (this_env w)
          (set_items (StdMap.insert (full ++ pretty n) item (items e)) (n + 1) e)).
Proof.
  intros Ho Henv Hslash. unfold attachItem, final_id.
  rewrite Ho, Henv, Hslash. reflexivity.
Qed.

(** C4.  An unattached item whose id ends in a slash is attached under the
    prefixed id followed by a numeric suffix [n]: [n] is not below the
    counter, the counter moves past it, and the final id was not bound
    before, so it is unique.  A second item with the same id, attached
    next, gets a strictly larger suffix, and both stay bound under their
    distinct final ids. *)
Theorem attachItem_fresh_suffix w item o :
  mem w !! item = Some o -> env (base o) = None ->
  ends_with_slash (unique_id (base o)) = true ->
  let e := environment w in
  let full := envPrefix e ++ unique_id (base o) in
  exists n w',
    attachItem w item = Ok w' /\
    last_id e <= n < last_id (environment w') /\
    StdMap.find (full ++ pretty n) (items e) = None /\
    StdMap.find (full ++ pretty n) (items (environment w')) = Some item /\
    (exists o', mem w' !! item = Some o' /\
                unique_id (base o') = full ++ pretty n /\
                env (base o') = Some (this_env w)) /\
    forall item2 o2,
      item2 <> item -> mem w !! item2 = Some o2 -> env (base o2) = None ->
      unique_id (base o2) = unique_id (base o) ->
      exists n2 w2,
        attachItem w' item2 = Ok w2 /\
        n < n2 /\
        full ++ pretty n <> full ++ pretty n2 /\
        StdMap.find (full ++ pretty n) (items (environment w2)) = Some item /\
        StdMap.find (full ++ pretty n2) (items (environment w2)) = Some item2.
Proof.
  intros Ho Henv Hslash e full.
  pose proof (attachItem_slash w item o Ho Henv Hslash) as Hatt.
  cbv zeta in Hatt. fold e in Hatt. fold full in Hatt.
  set (n := fresh_suffix (length (items e)) full (items e) (last_id e)) in *.
  destruct (fresh_suffix_bounds (length (items e)) full (items e) (last_id e))
    as (Hb & _ & _). fold n in Hb.
  eexists n, _. split; [exact Hatt |].
  cbn [environment set_items last_id items mem].
  split; [lia |]. split; [apply fresh_suffix_free |].
  split; [apply find_insert_eq |]. split.
  { eexists. rewrite lookup_insert_eq. split; [reflexivity |]. now cbn. }
  intros item2 o2 Hne Ho2 Henv2 Hid.
  match type of Hatt with _ = Ok ?x => set (w1 := x) in * end.
  assert (Ho2' : mem w1 !! item2 = Some o2).
  { unfold w1. cbn [mem]. now rewrite lookup_insert_ne. }
  assert (Hslash2 : ends_with_slash (unique_id (base o2)) = true) by now rewrite Hid.
  pose proof (attachItem_slash w1 item2 o2 Ho2' Henv2 Hslash2) as Hatt2.
  cbv zeta in Hatt2.
  assert (Hfull : envPrefix (environment w1) ++ unique_id (base o2) = full).
  { unfold w1, full. cbn. now rewrite Hid. }
  rewrite Hfull in Hatt2.
  set (n2 := fresh_suffix (length (items (environment w1))) full
               (items (environment w1)) (last_id (environment w1))) in *.
  destruct (fresh_suffix_bounds (length (items (environment w1))) full
              (items (environment w1)) (last_id (environment w1))) as (Hb2 & _ & _).
  fold n2 in Hb2.
  assert (Hlt : n < n2).
  { unfold w1 in Hb2. cbn [environment set_items last_id] in Hb2. lia. }
  assert (Hids : full ++ pretty n <> full ++ pretty n2).
  { intros Heq. apply suffixed_inj in Heq. lia. }
  eexists n2, _. split; [exact Hatt2 |].
  split; [exact Hlt |]. split; [exact Hids |].
  cbn [environment set_items items].
  split; [| apply find_insert_eq].
  rewrite find_insert_ne by congruence.
  unfold w1. cbn [environment set_items items]. apply find_insert_eq.
Qed.

Lemma attachItem_inv w item w' :
  attachItem w item = Ok w' ->
  (exists o, mem w !! item = Some o /\ env (base o) = None) /\
  cartesianMapGraph (environment w') = cartesianMapGraph (environment w) /\
  rootNode (environment w') = rootNode (environment w).
Proof.
  unfold attachItem. destruct (mem w !! item) as [o |] eqn:Ho; [| discriminate].
  destruct (env (base o)) eqn:Henv; [discriminate |].
  destruct (final_id (environment w) (unique_id (base o))) as [[id next] |]; [| discriminate].
  cbn [bind]. intros [= <-]. cbn. eauto.
Qed.

(** C7.  In an environment whose frame bindings are those of attached
    maps, attaching a cartesian map with the frame argument omitted binds
    the map to the root frame. *)
Theorem attachItem_map_binds_root w item w' :
  frames_of_attached w ->
  attachItem_map w item None = Ok w' ->
  getFrameNode (environment w') item = Some (rootNode (environment w)).
Proof.
  intros Hwf. unfold attachItem_map.
  destruct (attachItem w item) as [w1 |] eqn:Hatt; [| discriminate].
  cbn [bind]. apply attachItem_inv in Hatt as ((o & Ho & Henv) & Hg & Hroot).
  assert (Hfree : getFrameNode (environment w1) item = None).
  { unfold getFrameNode. rewrite Hg.
    destruct (cartesianMapGraph (environment w) !! item) as [node |] eqn:E; [| reflexivity].
    destruct (Hwf item node E) as (o' & Ho' & Henv'). congruence. }
  rewrite Hfree. intros [= <-].
  unfold getFrameNode, setFrameNode. cbn [environment set_cartesianMapGraph cartesianMapGraph].
  now rewrite lookup_insert_eq, Hroot.
Qed.
End AttachFacts.

Example attach_foo_twice :
  (w1 <-- attachItem foo_world 10%positive ;;
   w2 <-- attachItem w1 11%positive ;;
   Ok (items (environment w2), last_id (environment w2),
       getItem (MapClass 3) (mem w1) (environment w1),
       getItem (MapClass 3) (mem w2) (environment w2)))
  = Ok ([("/foo/1", 10%positive); ("/foo/2", 11%positive)], 3,
        Ok 10%positive, Throw Ambiguous).
Proof. vm_compute. reflexivity. Qed.

(** An id that does not end in a slash is taken as it is, and a second item
    with the same id collides. *)
Example attach_plain_id_twice :
  let w := mkWorld (<[10%positive := unattached_map "grid"]>
                      (<[11%positive := unattached_map "grid"]> ∅))
             100%positive (mkEnvironment 1 [] ∅ [] [] [] ∅ 1%positive "/") in
  (w1 <-- attachItem w 10%positive ;; Ok (items (environment w1))) = Ok [("/grid", 10%positive)] /\
  (w1 <-- attachItem w 10%positive ;; attachItem w1 11%positive) = Throw IdCollision /\
  (w1 <-- attachItem w 10%positive ;; attachItem w1 10%positive) = Throw AlreadyAttached.
Proof. vm_compute. repeat split. Qed.

Lemma attachItem_fresh_suffix_witness :
  (foo_world.(mem) !! 10%positive = Some (unattached_map "foo/") /\
   env (base (unattached_map "foo/")) = None /\
   ends_with_slash (unique_id (base (unattached_map "foo/"))) = true) /\
  exists n w',
    attachItem foo_world 10%positive = Ok w' /\
    last_id (environment foo_world) <= n < last_id (environment w') /\
    StdMap.find ("/foo/" ++ pretty n) (items (environment foo_world)) = None /\
    StdMap.find ("/foo/" ++ pretty n) (items (environment w')) = Some 10%positive.
Proof.
  split; [repeat split |].
  destruct (attachItem_fresh_suffix foo_world 10%positive (unattached_map "foo/")
              eq_refl eq_refl eq_refl) as (n & w' & H1 & H2 & H3 & H4 & _).
  exists n, w'. repeat split; assumption || apply H2.
Defined.

Lemma attachItem_map_binds_root_witness :
  frames_of_attached foo_world /\
  exists w',
    attachItem_map foo_world 10%positive None = Ok w' /\
    getFrameNode (environment w') 10%positive = Some 1%positive.
Proof.
  assert (Hwf : frames_of_attached foo_world).
  { intros map node H. vm_compute in H. discriminate H. }
  split; [exact Hwf |].
  destruct (attachItem_map foo_world 10%positive None) as [w' | e] eqn:E;
    [| vm_compute in E; discriminate E].
  exists w'. split; [reflexivity |].
  exact (attachItem_map_binds_root foo_world 10%positive w' Hwf E).
Defined.

(** ** Lookups by id *)

Section LookupFacts.
Context {V : Type}.

(** X1.  The typed lookup by id, [getItem<T>(uniqueId)], returns an item
    exactly when the id is bound to it and it is a [T]; it returns the null
    pointer when the id is not bound or the item is of another type. *)
Theorem getItem_typed_spec (T : Class) (mem : Memory V) (e : Environment)
    (uniqueId : string) (p : ptr) :
  getItem_typed T mem e uniqueId = Some p <->
  getItem_by_id e uniqueId = Some p /\ has_type T mem p = true.
Proof.
  unfold getItem_typed, getItem_by_id.
  destruct (StdMap.find uniqueId (items e)) as [q |].
  - rewrite dynamic_cast_has_type. destruct (has_type T mem q) eqn:E.
    + split; [intros [= <-]; tauto | intros [[= <-] _]; reflexivity].
    + split; [discriminate | intros [[= <-] H]; congruence].
  - cbn. split; [discriminate | intros [H _]; discriminate H].
Qed.

End LookupFacts.

(** * Further properties of the code *)

(** ** Classes *)

Lemma is_a_refl (c : Class) : is_a c c = true.
Proof. destruct c; cbn; now rewrite bool_decide_eq_true_2. Qed.

Lemma is_a_trans (c U T : Class) :
  is_a c U = true -> is_a U T = true -> is_a c T = true.
Proof.
  induction c as [| n b IH]; cbn [is_a]; intros HcU HUT.
  - case_bool_decide as E; [subst U; exact HUT | discriminate].
  - case_bool_decide as E.
    + subst U. exact HUT.
    + case_bool_decide; [reflexivity | now apply IH].
Qed.

Lemma is_a_root (c : Class) : is_a c EnvironmentItemClass = true.
Proof.
  induction c as [| n b IH]; cbn [is_a].
  - now rewrite bool_decide_eq_true_2.
  - now rewrite bool_decide_eq_false_2.
Qed.

Section OperatorLayersFacts.
Context {V : Type}.
Implicit Types (mem : Memory V) (e : Environment) (T U : Class).

Lemma has_type_subclass T U mem p :
  is_a U T = true -> has_type U mem p = true -> has_type T mem p = true.
Proof.
  unfold has_type, dynamic_cast. destruct (mem !! p) as [o |]; [| discriminate].
  intros HUT. destruct (is_a (dyn_class o) U) eqn:E; [| discriminate].
  now rewrite (is_a_trans _ _ _ E HUT).
Qed.

Lemma has_type_root mem p : is_Some (mem !! p) -> has_type EnvironmentItemClass mem p = true.
Proof.
  intros [o Ho]. unfold has_type, dynamic_cast. now rewrite Ho, is_a_root.
Qed.

(** The loop of [getInput] and [getOutput] in terms of the layers of the
    type still to come. *)
Lemma getLayer_loop_filter (multiple : exn) T mem (it : list ptr) (r : option ptr) :
  getLayer_loop multiple T mem it r =
  match r, filter (fun p => has_type T mem p = true) it with
  | None, [] => Ok None
  | None, [p] => Ok (Some p)
  | None, _ :: _ :: _ => Throw multiple
  | Some x, [] => Ok (Some x)
  | Some _, _ :: _ => Throw multiple
  end.
Proof.
  revert r. induction it as [| p it IH]; intros r; cbn [getLayer_loop].
  - now destruct r.
  - rewrite dynamic_cast_has_type, filter_cons.
    destruct (has_type T mem p) eqn:E.
    + rewrite decide_True by reflexivity.
      destruct r as [x |]; [reflexivity |].
      rewrite IH. now destruct (filter (fun p => has_type T mem p = true) it).
    + rewrite decide_False by discriminate. apply IH.
Qed.

Lemma filter_has_type_nil T mem (l : list ptr) :
  filter (fun q => has_type T mem q = true) l = [] <->
  forall q, q ∈ l -> has_type T mem q = false.
Proof.
  induction l as [| a l IH].
  - split; [intros _ q Hq; inversion Hq | reflexivity].
  - rewrite filter_cons. destruct (has_type T mem a) eqn:E.
    + rewrite decide_True by reflexivity. split; [discriminate |].
      intros H. specialize (H a (list_elem_of_here _ _)). congruence.
    + rewrite decide_False by discriminate. rewrite IH. split.
      * intros H q Hq. apply elem_of_cons in Hq as [-> | Hq]; [exact E | now apply H].
      * intros H q Hq. apply H. now right.
Qed.

Lemma getInput_filter T mem (inputs : list ptr) :
  getInput T mem inputs =
  match filter (fun p => has_type T mem p = true) inputs with
  | [] => Throw no_input
  | [p] => Ok p
  | _ :: _ :: _ => Throw more_than_one_input
  end.
Proof.
  unfold getInput. rewrite getLayer_loop_filter.
  destruct (filter (fun p => has_type T mem p = true) inputs) as [| p [| q l]]; reflexivity.
Qed.

Lemma getOutput_filter T mem (outputs : list ptr) :
  getOutput T mem outputs =
  match filter (fun p => has_type T mem p = true) outputs with
  | [] => Throw no_output
  | [p] => Ok p
  | _ :: _ :: _ => Throw more_than_one_output
  end.
Proof.
  unfold getOutput. rewrite getLayer_loop_filter.
  destruct (filter (fun p => has_type T mem p = true) outputs) as [| p [| q l]]; reflexivity.
Qed.

(** X3.  [getInput<LayerT>(op)] returns a layer exactly when that layer is
    the only input of the operator that is a [LayerT] (a layer bound twice
    counts twice); it throws the "more than one" error when two or more
    inputs are, and the "cannot find" error when none is. *)
Theorem getInput_single T mem (inputs : list ptr) :
  (forall p, getInput T mem inputs = Ok p <->
     filter (fun q => has_type T mem q = true) inputs = [p]) /\
  (getInput T mem inputs = Throw no_input <->
     forall q, q ∈ inputs -> has_type T mem q = false) /\
  (getInput T mem inputs = Throw more_than_one_input <->
     (2 <= length (filter (fun q => has_type T mem q = true) inputs))%nat).
Proof.
  rewrite getInput_filter.
  assert (Hnone : filter (fun q => has_type T mem q = true) inputs = [] <->
                  forall q, q ∈ inputs -> has_type T mem q = false).
  { apply filter_has_type_nil. }
  rewrite <- Hnone.
  destruct (filter (fun q => has_type T mem q = true) inputs) as [| p [| q l]];
    cbn [length]; (split; [intros p'|split]); split;
    try discriminate; try reflexivity; try congruence; try lia; try (intros _; lia).
Qed.

(** X4.  The same for [getOutput<LayerT>(op)]: the only output of the type,
    or one of the two errors of its own. *)
Theorem getOutput_single T mem (outputs : list ptr) :
  (forall p, getOutput T mem outputs = Ok p <->
     filter (fun q => has_type T mem q = true) outputs = [p]) /\
  (getOutput T mem outputs = Throw no_output <->
     forall q, q ∈ outputs -> has_type T mem q = false) /\
  (getOutput T mem outputs = Throw more_than_one_output <->
     (2 <= length (filter (fun q => has_type T mem q = true) outputs))%nat).
Proof.
  rewrite getOutput_filter.
  assert (Hnone : filter (fun q => has_type T mem q = true) outputs = [] <->
                  forall q, q ∈ outputs -> has_type T mem q = false).
  { apply filter_has_type_nil. }
  rewrite <- Hnone.
  destruct (filter (fun q => has_type T mem q = true) outputs) as [| p [| q l]];
    cbn [length]; (split; [intros p'|split]); split;
    try discriminate; try reflexivity; try congruence; try lia; try (intros _; lia).
Qed.
End OperatorLayersFacts.

Section RegistryMore.
Context {V : Type}.
Implicit Types (mem : Memory V) (e : Environment) (T U : Class).

(** X5.  The result of [getInput<LayerT>] and of [getOutput<LayerT>], an
    error included, does not depend on the order in which the layers of the
    operator are listed. *)
Theorem getInput_order_irrelevant T mem (layers layers' : list ptr) :
  layers ≡ₚ layers' ->
  getInput T mem layers = getInput T mem layers' /\
  getOutput T mem layers = getOutput T mem layers'.
Proof.
  intros Hp. rewrite !getInput_filter, !getOutput_filter.
  assert (Hf : filter (fun p => has_type T mem p = true) layers
               ≡ₚ filter (fun p => has_type T mem p = true) layers')
    by now rewrite Hp.
  destruct (filter (fun p => has_type T mem p = true) layers) as [| p [| q l]].
  - apply Permutation_nil_l in Hf. rewrite <- Hf. split; reflexivity.
  - apply Permutation_singleton_l in Hf. rewrite <- Hf. split; reflexivity.
  - apply Permutation_length in Hf.
    destruct (filter (fun p => has_type T mem p = true) layers') as [| p' [| q' l']];
      try discriminate Hf. split; reflexivity.
Qed.

Lemma getGeneratedFrom_loop_filter T mem (it acc : list ptr) :
  getGeneratedFrom_loop T mem it acc =
  (acc ++ filter (fun p => has_type T mem p = true) it)%list.
Proof.
  revert acc. induction it as [| p it IH]; intros acc; cbn [getGeneratedFrom_loop].
  - cbn. now rewrite app_nil_r.
  - rewrite dynamic_cast_has_type, filter_cons.
    destruct (has_type T mem p) eqn:E.
    + rewrite decide_True by reflexivity. rewrite IH. now rewrite <- app_assoc.
    + rewrite decide_False by discriminate. apply IH.
Qed.

(** X6.  [getGeneratedFrom<T>(input)] returns exactly the layers generated
    from the input that are of type [T], in the order in which
    [getLayersGeneratedFrom] lists them and as often as it lists them; what
    it returns for a class [U] derived from [T] is what it returns for [T]
    with the layers that are no [U] left out. *)
Theorem getGeneratedFrom_filter T mem (all : list ptr) :
  getGeneratedFrom T mem all = filter (fun p => has_type T mem p = true) all /\
  (forall U, is_a U T = true ->
     getGeneratedFrom U mem all
       = filter (fun p => has_type U mem p = true) (getGeneratedFrom T mem all)).
Proof.
  assert (H : forall C, getGeneratedFrom C mem all
                        = filter (fun p => has_type C mem p = true) all).
  { intros C. unfold getGeneratedFrom. now rewrite getGeneratedFrom_loop_filter. }
  split; [apply H |]. intros U HU. rewrite !H.
  symmetry. apply list_filter_filter_l. intros p. now apply has_type_subclass.
Qed.

(** X7.  [getItem<T>()] and [getItems<T>()] agree: the first returns an
    item exactly when the second returns that item alone, throws "no maps"
    exactly when the second returns nothing, and throws "multiple maps"
    exactly when the second returns two items or more. *)
Theorem getItem_agrees_with_getItems T mem e :
  (forall p, getItem T mem e = Ok p <-> getItems T mem e = [p]) /\
  (getItem T mem e = Throw NotFound <-> getItems T mem e = []) /\
  (getItem T mem e = Throw Ambiguous <-> (2 <= length (getItems T mem e))%nat).
Proof.
  rewrite getItem_typed_items, getItems_typed_items.
  destruct (typed_items T mem e) as [| p [| q l]]; cbn [length];
    (split; [intros p' | split]); split;
    try discriminate; try reflexivity; try congruence; try lia; try (intros _; lia).
Qed.

(** X8.  When [U] is [T] or derives from it, the items [getItems<U>()]
    returns are among those [getItems<T>()] returns, in the same relative
    order. *)
Theorem getItems_subclass_sublist T U mem e :
  is_a U T = true ->
  getItems U mem e `sublist_of` getItems T mem e.
Proof.
  intros HU. rewrite !getItems_typed_items. unfold typed_items, typed_bindings.
  apply (fmap_sublist snd).
  rewrite <- (list_filter_filter_l (fun kv : string * ptr => has_type U mem (snd kv) = true)
                (fun kv : string * ptr => has_type T mem (snd kv) = true)).
  - apply sublist_filter.
  - intros kv. now apply has_type_subclass.
Qed.

(** X9.  When every pointer of the id map points to an object,
    [getItems<EnvironmentItem>()] returns all attached items, in the order
    of their ids. *)
Theorem getItems_base_all mem e :
  items_live mem e ->
  getItems EnvironmentItemClass mem e = StdMap.values (items e).
Proof.
  intros Hlive. rewrite getItems_typed_items.
  unfold typed_items, typed_bindings, StdMap.values. f_equal.
  unfold items_live in Hlive.
  induction (items e) as [| [id p] it IH]; [reflexivity |].
  rewrite filter_cons. cbn [snd].
  rewrite decide_True by (apply has_type_root, (Hlive id); now left).
  f_equal. apply IH. intros id' p' Hin. apply (Hlive id'). now right.
Qed.

(** X10.  In an id map with ascending keys, [getItems<T>()] lists exactly
    the items that the typed lookup by id, [getItem<T>(id)], can fetch. *)
Theorem getItems_fetchable T mem e :
  StdMap.ordered (items e) ->
  forall p, p ∈ getItems T mem e <-> exists id, getItem_typed T mem e id = Some p.
Proof.
  intros Hord p. rewrite getItems_typed_items.
  unfold typed_items, typed_bindings, getItem_typed.
  rewrite list_elem_of_fmap. split.
  - intros [[id q] [-> Hin]]. apply list_elem_of_filter in Hin as [Ht Hin].
    exists id. apply list_elem_of_In, (find_ordered id q _ Hord) in Hin.
    rewrite Hin, dynamic_cast_has_type. cbn [snd] in Ht. now rewrite Ht.
  - intros [id Hid].
    destruct (StdMap.find id (items e)) as [q |] eqn:E; [| discriminate Hid].
    rewrite dynamic_cast_has_type in Hid.
    destruct (has_type T mem q) eqn:Ht; [| discriminate Hid].
    injection Hid as ->. exists (id, p). split; [reflexivity |].
    apply list_elem_of_filter. split; [exact Ht |].
    apply list_elem_of_In. now apply find_ordered.
Qed.
End RegistryMore.

Lemma getInput_order_irrelevant_witness :
  [1%positive; 2%positive] ≡ₚ [2%positive; 1%positive] /\
  getInput LayerClass two_layers_mem [1%positive; 2%positive]
    = getInput LayerClass two_layers_mem [2%positive; 1%positive] /\
  getOutput LayerClass two_layers_mem [1%positive; 2%positive]
    = getOutput LayerClass two_layers_mem [2%positive; 1%positive].
Proof.
  assert (H : [1%positive; 2%positive] ≡ₚ [2%positive; 1%positive]) by apply perm_swap.
  split; [exact H |].
  exact (getInput_order_irrelevant LayerClass two_layers_mem _ _ H).
Defined.

Lemma getItems_subclass_sublist_witness :
  is_a MLSSlopeClass OperatorClass = true /\
  getItems MLSSlopeClass (mem chain_world) (environment chain_world)
    `sublist_of` getItems OperatorClass (mem chain_world) (environment chain_world).
Proof.
  split; [reflexivity |].
  exact (getItems_subclass_sublist OperatorClass MLSSlopeClass (mem chain_world)
           (environment chain_world) eq_refl).
Defined.

Lemma getItems_base_all_witness :
  items_live two_layers_mem two_layers_env /\
  getItems EnvironmentItemClass two_layers_mem two_layers_env
    = StdMap.values (items two_layers_env).
Proof.
  assert (H : items_live two_layers_mem two_layers_env).
  { intros id p Hin. vm_compute in Hin.
    destruct Hin as [[= <- <-] | [[= <- <-] | []]]; eexists; reflexivity. }
  split; [exact H |].
  exact (getItems_base_all two_layers_mem two_layers_env H).
Defined.

Lemma getItems_fetchable_witness :
  StdMap.ordered (items two_layers_env) /\
  forall p, p ∈ getItems LayerClass two_layers_mem two_layers_env <->
            exists id, getItem_typed LayerClass two_layers_mem two_layers_env id = Some p.
Proof.
  assert (H : StdMap.ordered (items two_layers_env))
    by apply (of_insertions_ordered two_layers_history).
  split; [exact H |].
  exact (getItems_fetchable LayerClass two_layers_mem two_layers_env H).
Defined.

(** ** Layer metadata, continued *)

Section LayerDataMore.
Context {V : Type} (default_construct : type_info -> V).

Lemma find_Some_keys {A : Type} (k : string) (a : A) (m : StdMap.t A) :
  StdMap.find k m = Some a -> In k (StdMap.keys m).
Proof.
  intros H. destruct (in_dec string_dec k (StdMap.keys m)) as [Hin | Hin]; [exact Hin |].
  apply find_None_keys in Hin. congruence.
Qed.

(** The layer after the non-const [getData]. *)
Lemma getData_layer (T : type_info) (type : string) (this : Layer V) :
  snd (getData default_construct T type this) =
  match StdMap.find type (data_map this) with
  | Some _ => this
  | None => set_data_map
              (StdMap.insert type (new_Holder default_construct T) (data_map this)) this
  end.
Proof.
  unfold getData, hasData. rewrite mem_find.
  destruct (StdMap.find type (data_map this)) as [h |] eqn:E; cbn [negb].
  - now rewrite E.
  - cbn [data_map set_data_map]. now rewrite find_insert_eq.
Qed.

(** X11.  The non-const [getData<T>(key)], whether it returns or throws,
    leaves the layer with metadata under [key] and changes nothing else: a
    layer that had the key is not modified at all, the holders under all
    other keys stay, the keys stay in ascending order and the flags keep
    their values. *)
Theorem getData_touches_key_only (T : type_info) (type : string) (this : Layer V) :
  let this' := snd (getData default_construct T type this) in
  hasData type this' = true /\
  (forall k, In k (StdMap.keys (data_map this')) <->
             k = type \/ In k (StdMap.keys (data_map this))) /\
  (forall k, k <> type ->
     StdMap.find k (data_map this') = StdMap.find k (data_map this)) /\
  (hasData type this = true -> this' = this) /\
  (StdMap.ordered (data_map this) -> StdMap.ordered (data_map this')) /\
  immutable this' = immutable this /\ dirty this' = dirty this.
Proof.
  cbv zeta. rewrite getData_layer. unfold hasData. rewrite !mem_find.
  destruct (StdMap.find type (data_map this)) as [h |] eqn:E.
  - rewrite E. repeat split; try tauto.
    intros [-> | H]; [now apply find_Some_keys in E | exact H].
  - cbn [data_map set_data_map immutable dirty]. rewrite find_insert_eq.
    split; [reflexivity |]. split; [intros k; apply keys_insert |].
    split; [intros k Hk; apply find_insert_ne; congruence |].
    split; [discriminate |].
    split; [apply insert_ordered | split; reflexivity].
Qed.

(** X12.  On a key that has metadata, the non-const and the const
    [getData<T>(key)] give the same result, an error included, and the
    non-const one does not modify the layer. *)
Theorem getData_present_agrees (T : type_info) (type : string) (this : Layer V) :
  hasData type this = true ->
  getData default_construct T type this = (getData_const T type this, this).
Proof.
  unfold getData, getData_const, hasData. rewrite !mem_find.
  destruct (StdMap.find type (data_map this)) as [h |] eqn:E; [| discriminate].
  intros _. cbn [negb]. now rewrite E.
Qed.

(** The result of the non-const [getData]. *)
Lemma getData_result (T : type_info) (type : string) (this : Layer V) :
  fst (getData default_construct T type this) =
  match StdMap.find type (data_map this) with
  | Some h => Holder_get T h
  | None => Ok (default_construct T)
  end.
Proof.
  unfold getData, hasData. rewrite mem_find.
  destruct (StdMap.find type (data_map this)) as [h |] eqn:E; cbn [negb].
  - now rewrite E.
  - cbn [data_map set_data_map]. rewrite find_insert_eq.
    unfold Holder_get, isOfType, new_Holder. cbn [held_type held fst].
    now rewrite bool_decide_eq_true_2.
Qed.

(** X13.  A second non-const [getData<T>(key)] right after the first gives
    the same result and changes nothing any more; and the call returns a
    value exactly when, afterwards, [hasData<T>(key)] holds. *)
Theorem getData_idempotent (T : type_info) (type : string) (this : Layer V) :
  let r := fst (getData default_construct T type this) in
  let this' := snd (getData default_construct T type this) in
  getData default_construct T type this' = (r, this') /\
  ((exists v, r = Ok v) <-> hasData_typed T type this' = true).
Proof.
  cbv zeta. rewrite getData_layer, getData_result. unfold hasData_typed.
  destruct (StdMap.find type (data_map this)) as [h |] eqn:E.
  - split.
    + rewrite (surjective_pairing (getData default_construct T type this)).
      now rewrite getData_layer, getData_result, E.
    + rewrite E. unfold Holder_get.
      destruct (isOfType T h); split; eauto; try discriminate.
      intros [v Hv]. discriminate Hv.
  - split.
    + rewrite (surjective_pairing (getData default_construct T type _)).
      rewrite getData_layer, getData_result. cbn [data_map set_data_map].
      rewrite find_insert_eq. unfold Holder_get, isOfType, new_Holder.
      cbn [held_type held]. now rewrite bool_decide_eq_true_2.
    + cbn [data_map set_data_map]. rewrite find_insert_eq.
      unfold isOfType, new_Holder. cbn [held_type].
      rewrite bool_decide_eq_true_2 by reflexivity. split; eauto.
Qed.
End LayerDataMore.

Lemma getData_present_agrees_witness :
  hasData "count" layer_with_count = true /\
  getData (fun _ => 0) "double" "count" layer_with_count
    = (getData_const "double" "count" layer_with_count, layer_with_count).
Proof.
  split; [reflexivity |].
  exact (getData_present_agrees (fun _ => 0) "double" "count" layer_with_count eq_refl).
Defined.

(** ** The tool, continued *)

Section ToolMore.
Context {W Env Item Op : Type}.
Variable lib : @Library W Env Item Op.

(** X16.  The two ids are converted before the environment is loaded: when
    the tool has its three arguments and the second or the third is not an
    integer, the run ends with the exception of the conversion, whatever the
    calls on the environment would do. *)
Theorem main_bad_id (argv : list string) (w : W) (e : exn) :
  length argv = 4%nat ->
  lexical_cast_int lib (arg argv 2) = Throw e \/
  (exists grid_map_id, lexical_cast_int lib (arg argv 2) = Ok grid_map_id /\
                       lexical_cast_int lib (arg argv 3) = Throw e) ->
  forall lib' : @Library W Env Item Op,
    lexical_cast_int lib' = lexical_cast_int lib ->
    main lib' argv w = mkOutcome [] (Uncaught e).
Proof.
  intros Hlen Hbad lib' Hcast. unfold main.
  rewrite bool_decide_eq_false_2 by (intros H; apply H; exact Hlen).
  unfold main_body. rewrite Hcast.
  destruct Hbad as [H | (g & Hg & H)].
  - now rewrite H.
  - rewrite Hg. cbn [bind]. now rewrite H.
Qed.

(** X17.  [main] does not look at what [setInput] and [setOutput] return:
    with the booleans they return changed in any way, the run ends the same
    way; in particular a refused input or output does not stop the tool
    from updating and writing the environment. *)
Theorem main_ignores_set_results (f : bool -> bool) (argv : list string) (w : W) :
  main (with_set_results f lib) argv w = main lib argv w.
Proof.
  unfold main. case_bool_decide; [reflexivity |].
  assert (Hb : main_body (with_set_results f lib) argv w = main_body lib argv w).
  { unfold main_body, with_set_results, bind.
    cbn [lexical_cast_int Environment_unserialize getItem_GridBase getItem_MLSGrid
         new_GridFloatToMLS Operator_setInput Operator_setOutput
         Environment_updateOperators Environment_serialize].
    destruct (lexical_cast_int lib (arg argv 2)) as [g |]; [| reflexivity].
    destruct (lexical_cast_int lib (arg argv 3)) as [m |]; [| reflexivity].
    destruct (Environment_unserialize lib (arg argv 1) w) as [[env0 w1] |]; [| reflexivity].
    destruct (getItem_GridBase lib env0 g w1) as [[input w2] |]; [| reflexivity].
    destruct (getItem_MLSGrid lib env0 m w2) as [[output w3] |]; [| reflexivity].
    destruct (new_GridFloatToMLS lib w3) as [[op w4] |]; [| reflexivity].
    destruct (Operator_setInput lib op input w4) as [[b1 w5] |]; [| reflexivity].
    cbn [fst snd].
    destruct (Operator_setOutput lib op output w5) as [[b2 w6] |]; reflexivity. }
  now rewrite Hb.
Qed.
End ToolMore.

Lemma main_bad_id_witness :
  length ["env_grid_to_mls"; "env"; "x"; "2"] = 4%nat /\
  lexical_cast_int missing_env_library (arg ["env_grid_to_mls"; "env"; "x"; "2"] 2)
    = Throw bad_lexical_cast /\
  main missing_env_library ["env_grid_to_mls"; "env"; "x"; "2"] tt
    = mkOutcome [] (Uncaught bad_lexical_cast).
Proof.
  split; [reflexivity |]. split; [reflexivity |].
  exact (main_bad_id missing_env_library ["env_grid_to_mls"; "env"; "x"; "2"] tt
           bad_lexical_cast eq_refl (or_introl eq_refl) missing_env_library eq_refl).
Defined.

(** ** The geometry of the MLS visualization *)

Section VisualizationFacts.
Context {double float Vec4 : Type}.
Variable narrow : double -> float.
Variable widen : float -> double.
Variables add sub mul : double -> double -> double.
Variable gt : double -> double -> bool.
Variable lit : Q -> double.
Variable of_size_t : nat -> double.

Local Abbreviation drawBox' := (drawBox narrow widen add sub mul gt lit).
Local Abbreviation box_vertices' := (box_vertices widen gt lit).
Local Abbreviation patch_extents' := (patch_extents narrow lit).


Lemma drawBox_lengths (q : Quads float Vec4) (position extents : Vec3 float)
    (color : Vec4) :
  length (quad_vertices (drawBox' q position extents color))
    = (length (quad_vertices q) + box_vertices' extents)%nat /\
  length (quad_normals (drawBox' q position extents color))
    = (length (quad_normals q) + box_vertices' extents)%nat /\
  length (quad_colors (drawBox' q position extents color))
    = (length (quad_colors q) + box_vertices' extents)%nat.
Proof.
  unfold drawBox, box_vertices, push_face.
  destruct (gt (widen (vec_z extents)) (lit 0));
    cbn [quad_vertices quad_normals quad_colors];
    rewrite ?length_app; cbn [length]; repeat split; lia.
Qed.

Local Abbreviation draw_patch' := (draw_patch narrow widen add sub mul gt lit of_size_t).
Local Abbreviation updateNode_geometry' :=
  (updateNode_geometry narrow widen add sub mul gt lit of_size_t).

Lemma draw_patch_lengths (st : @Style Vec4) (mls : @Grid double) (x y : nat)
    (n : NodeGeometry float Vec4) (p : SurfacePatch double) :
  let n' := draw_patch' st mls x y n p in
  length (quad_vertices (quads n'))
    = (length (quad_vertices (quads n)) + box_vertices' (patch_extents' mls p))%nat /\
  length (quad_normals (quads n'))
    = (length (quad_normals (quads n)) + box_vertices' (patch_extents' mls p))%nat /\
  length (quad_colors (quads n'))
    = (length (quad_colors (quads n)) + box_vertices' (patch_extents' mls p))%nat /\
  length (var_vertices n')
    = (length (var_vertices n) + if showUncertainty st then 2 else 0)%nat.
Proof.
  cbv zeta. unfold draw_patch, patch_extents.
  destruct (horizontal p), (showUncertainty st); cbn [quads var_vertices];
    rewrite ?length_app; cbn [length];
    match goal with
    | |- context [drawBox' ?q ?pos ?ext ?c] =>
        destruct (drawBox_lengths q pos ext c) as (H1 & H2 & H3)
    end; rewrite H1, H2, H3; repeat split; lia.
Qed.

Lemma fold_draw_patch_lengths (st : @Style Vec4) (mls : @Grid double)
    (l : list (nat * nat * SurfacePatch double)) (n : NodeGeometry float Vec4) :
  let n' := fold_left (fun n xyp => draw_patch' st mls (fst (fst xyp)) (snd (fst xyp)) n
                                      (snd xyp)) l n in
  let added := sum_list (map (fun xyp => box_vertices' (patch_extents' mls (snd xyp))) l) in
  length (quad_vertices (quads n')) = (length (quad_vertices (quads n)) + added)%nat /\
  length (quad_normals (quads n')) = (length (quad_normals (quads n)) + added)%nat /\
  length (quad_colors (quads n')) = (length (quad_colors (quads n)) + added)%nat /\
  length (var_vertices n')
    = (length (var_vertices n) + length l * if showUncertainty st then 2 else 0)%nat.
Proof.
  cbv zeta. revert n. induction l as [| [[x y] p] l IH]; intros n; cbn [fold_left map sum_list length].
  - repeat split; lia.
  - destruct (IH (draw_patch' st mls x y n p)) as (H1 & H2 & H3 & H4).
    destruct (draw_patch_lengths st mls x y n p) as (G1 & G2 & G3 & G4).
    cbn [fst snd] in *. rewrite H1, H2, H3, H4, G1, G2, G3, G4.
    unfold id. destruct (showUncertainty st); repeat split; lia.
Qed.

(** X19.  The arrays [updateNode] builds are consistent: there are as many
    normals and colours as vertices, the number of vertices is a multiple
    of four (they are drawn as quads, with one normal and one colour per
    vertex), and the uncertainty lines get two vertices for every patch of
    the grid when they are shown and none when they are not. *)
Theorem updateNode_arrays_consistent (st : @Style Vec4) (mls : @Grid double) :
  let n := updateNode_geometry' st mls in
  length (quad_normals (quads n)) = length (quad_vertices (quads n)) /\
  length (quad_colors (quads n)) = length (quad_vertices (quads n)) /\
  (exists k, length (quad_vertices (quads n)) = (4 * k)%nat) /\
  length (var_vertices n)
    = (if showUncertainty st then 2 * length (visited mls) else 0)%nat.
Proof.
  cbv zeta. unfold updateNode_geometry.
  destruct (fold_draw_patch_lengths st mls (visited mls)
              (mkNodeGeometry (mkQuads [] [] []) [] 0)) as (H1 & H2 & H3 & H4).
  cbv zeta in H1, H2, H3, H4. cbn [quads quad_vertices quad_normals quad_colors
                                     var_vertices length] in H1, H2, H3, H4.
  rewrite H1, H2, H3, H4. split; [reflexivity |]. split; [reflexivity |]. split.
  - cbn [Nat.add]. clear. induction (visited mls) as [| xyp l [k Hk]]; cbn [map sum_list].
    + exists 0%nat. reflexivity.
    + assert (Hj : exists j, box_vertices' (patch_extents' mls (snd xyp)) = (4 * j)%nat).
      { unfold box_vertices.
        destruct (gt _ _); [exists 6%nat | exists 1%nat]; reflexivity. }
      destruct Hj as [j Hj]. rewrite Hj, Hk. exists (j + k)%nat. unfold id. lia.
  - destruct (showUncertainty st); lia.
Qed.

End VisualizationFacts.


(** ** The extents of a point cloud *)

Section ExtentsFacts.
Context {num : Type} (le : relation num) `{!RelDecision le}.
Context `{!PreOrder le} `{!Total le}.
Variables highest lowest : num.

Local Abbreviation num_min' := (num_min le).
Local Abbreviation num_max' := (num_max le).
Local Abbreviation extend' := (extend le).
Local Abbreviation getExtents' := (getExtents le highest lowest).
Local Abbreviation contains' := (contains le).

Lemma num_min_l (a b : num) : le (num_min' a b) a.
Proof.
unfold num_min. destruct (decide (le a b)) as [|n]; [reflexivity|].
destruct (total le a b); [contradiction | assumption].
Qed.

Lemma num_min_r (a b : num) : le (num_min' a b) b.
Proof. unfold num_min. destruct (decide (le a b)); [assumption | reflexivity]. Qed.

Lemma num_max_l (a b : num) : le a (num_max' a b).
Proof.
unfold num_max. destruct (decide (le b a)) as [|n]; [reflexivity|].
destruct (total le a b); [assumption | contradiction].
Qed.

Lemma num_max_r (a b : num) : le b (num_max' a b).
Proof. unfold num_max. destruct (decide (le b a)); [assumption | reflexivity]. Qed.

Lemma num_min_cases (a b : num) : num_min' a b = a \/ num_min' a b = b.
Proof. unfold num_min. destruct (decide (le a b)); auto. Qed.

Lemma num_max_cases (a b : num) : num_max' a b = a \/ num_max' a b = b.
Proof. unfold num_max. destruct (decide (le b a)); auto. Qed.

(** The running minimum is below its start value and below every number
    folded in. *)
Lemma fold_min_lower (xs : list num) (m : num) :
  le (fold_left num_min' xs m) m /\ Forall (le (fold_left num_min' xs m)) xs.
Proof.
revert m. induction xs as [|x xs IH]; intros m; cbn [fold_left].
- split; [reflexivity | constructor].
- destruct (IH (num_min' m x)) as [H1 H2]. split.
  + etransitivity; [exact H1 | apply num_min_l].
  + constructor; [|exact H2]. etransitivity; [exact H1 | apply num_min_r].
Qed.

Lemma fold_max_upper (xs : list num) (m : num) :
  le m (fold_left num_max' xs m) /\ Forall (fun x => le x (fold_left num_max' xs m)) xs.
Proof.
revert m. induction xs as [|x xs IH]; intros m; cbn [fold_left].
- split; [reflexivity | constructor].
- destruct (IH (num_max' m x)) as [H1 H2]. split.
  + etransitivity; [apply num_max_l | exact H1].
  + constructor; [|exact H2]. etransitivity; [apply num_max_r | exact H1].
Qed.

(** The running minimum is its start value or one of the numbers. *)
Lemma fold_min_attained (xs : list num) (m : num) :
  fold_left num_min' xs m = m \/ In (fold_left num_min' xs m) xs.
Proof.
revert m. induction xs as [|x xs IH]; intros m; cbn [fold_left]; [now left|].
destruct (IH (num_min' m x)) as [H|H]; [|right; now right].
rewrite H. destruct (num_min_cases m x) as [E|E]; rewrite E; [now left | right; now left].
Qed.

Lemma fold_max_attained (xs : list num) (m : num) :
  fold_left num_max' xs m = m \/ In (fold_left num_max' xs m) xs.
Proof.
revert m. induction xs as [|x xs IH]; intros m; cbn [fold_left]; [now left|].
destruct (IH (num_max' m x)) as [H|H]; [|right; now right].
rewrite H. destruct (num_max_cases m x) as [E|E]; rewrite E; [now left | right; now left].
Qed.

(** Each coordinate of each corner is folded on its own. *)
Lemma fold_extend (vs : list (Vector3 num)) (b : AlignedBox num) :
  fold_left extend' vs b =
  mkAlignedBox
    (mkVector3 (fold_left num_min' (map vx vs) (vx (box_min b)))
       (fold_left num_min' (map vy vs) (vy (box_min b)))
       (fold_left num_min' (map vz vs) (vz (box_min b))))
    (mkVector3 (fold_left num_max' (map vx vs) (vx (box_max b)))
       (fold_left num_max' (map vy vs) (vy (box_max b)))
       (fold_left num_max' (map vz vs) (vz (box_max b)))).
Proof.
revert b. induction vs as [|v vs IH]; intros b; cbn [fold_left map].
- now destruct b as [[] []].
- rewrite IH. reflexivity.
Qed.

Lemma Forall_map_In {A} (f : A -> num) (P : num -> Prop) (l : list A) (a : A) :
  Forall P (map f l) -> In a l -> P (f a).
Proof.
intros HF Hin. rewrite List.Forall_forall in HF. apply HF. now apply in_map.
Qed.

(** A lower bound of the start value and of all the numbers is below the
    running minimum. *)
Lemma fold_min_greatest (xs : list num) (m lo : num) :
  le lo m -> Forall (le lo) xs -> le lo (fold_left num_min' xs m).
Proof.
intros Hm Hxs. destruct (fold_min_attained xs m) as [E|E]; [now rewrite E|].
rewrite List.Forall_forall in Hxs. now apply Hxs.
Qed.

Lemma fold_max_least (xs : list num) (m hi : num) :
  le m hi -> Forall (fun x => le x hi) xs -> le (fold_left num_max' xs m) hi.
Proof.
intros Hm Hxs. destruct (fold_max_attained xs m) as [E|E]; [now rewrite E|].
rewrite List.Forall_forall in Hxs. now apply Hxs.
Qed.

Lemma fold_min_perm (xs ys : list num) (m : num) :
  xs ≡ₚ ys -> same le (fold_left num_min' xs m) (fold_left num_min' ys m).
Proof.
intros HP. split; apply fold_min_greatest;
  try apply (proj1 (fold_min_lower _ m)).
- rewrite <- HP. apply fold_min_lower.
- rewrite HP. apply fold_min_lower.
Qed.

Lemma fold_max_perm (xs ys : list num) (m : num) :
  xs ≡ₚ ys -> same le (fold_left num_max' xs m) (fold_left num_max' ys m).
Proof.
intros HP. split; apply fold_max_least;
  try apply (proj1 (fold_max_upper _ m)).
- rewrite HP. apply fold_max_upper.
- rewrite <- HP. apply fold_max_upper.
Qed.

(** X21.  [Pointcloud::getExtents] returns a box that contains every
    vertex of the point cloud. *)
Theorem getExtents_contains (vertices : list (Vector3 num)) :
  Forall (contains' (getExtents' vertices)) vertices.
Proof.
apply List.Forall_forall. intros p Hin.
unfold getExtents. rewrite fold_extend. unfold contains; cbn.
repeat split.
- apply (Forall_map_In vx (le _) vertices p); [apply fold_min_lower | exact Hin].
- apply (Forall_map_In vx (fun x => le x _) vertices p); [apply fold_max_upper | exact Hin].
- apply (Forall_map_In vy (le _) vertices p); [apply fold_min_lower | exact Hin].
- apply (Forall_map_In vy (fun x => le x _) vertices p); [apply fold_max_upper | exact Hin].
- apply (Forall_map_In vz (le _) vertices p); [apply fold_min_lower | exact Hin].
- apply (Forall_map_In vz (fun x => le x _) vertices p); [apply fold_max_upper | exact Hin].
Qed.

(** X22.  The box [Pointcloud::getExtents] returns does not depend on the
    order of the vertices: for two orders of the same vertices the corners
    compare equal. *)
Theorem getExtents_order_irrelevant (vertices vertices' : list (Vector3 num)) :
  vertices ≡ₚ vertices' ->
  same_box le (getExtents' vertices) (getExtents' vertices').
Proof.
intros HP. unfold getExtents. rewrite !fold_extend. unfold same_box; cbn.
pose proof (Permutation_map vx HP) as Hx.
pose proof (Permutation_map vy HP) as Hy.
pose proof (Permutation_map vz HP) as Hz.
split; (split; [|split]);
  first [ now apply fold_min_perm | now apply fold_max_perm ].
Qed.

(** X23.  For a point cloud with at least one vertex, all vertices finite,
    the box [Pointcloud::getExtents] returns is the smallest one: it lies
    inside every box that contains all the vertices. *)
Theorem getExtents_smallest (vertices : list (Vector3 num)) (b : AlignedBox num) :
  vertices <> [] ->
  Forall (finite le highest lowest) vertices ->
  Forall (contains' b) vertices ->
  contains_box le b (getExtents' vertices).
Proof.
intros Hne Hfin Hb.
destruct vertices as [|p ps]; [contradiction|].
assert (Hp : finite le highest lowest p) by now inversion Hfin.
assert (Hbp : contains' b p) by now inversion Hb.
destruct Hp as [[Hx1 Hx2] [[Hy1 Hy2] [Hz1 Hz2]]].
destruct Hbp as [[Bx1 Bx2] [[By1 By2] [Bz1 Bz2]]].
rewrite List.Forall_forall in Hb.
unfold getExtents. rewrite fold_extend. unfold contains_box; cbn [box_min box_max vx vy vz empty_box].
assert (Hin : forall (f : Vector3 num -> num) (P : num -> Prop),
           (forall q, contains' b q -> P (f q)) -> Forall P (map f (p :: ps))).
{ intros f P HP. apply List.Forall_forall. intros x Hx. apply in_map_iff in Hx.
  destruct Hx as [q [<- Hq]]. apply HP, Hb, Hq. }
split; (split; [|split]).
- apply fold_min_greatest; [now transitivity (vx p)|]. apply Hin. now intros q [[? ?] _].
- apply fold_min_greatest; [now transitivity (vy p)|]. apply Hin. now intros q [_ [[? ?] _]].
- apply fold_min_greatest; [now transitivity (vz p)|]. apply Hin. now intros q [_ [_ [? ?]]].
- apply fold_max_least; [now transitivity (vx p)|]. apply Hin. now intros q [[? ?] _].
- apply fold_max_least; [now transitivity (vy p)|]. apply Hin. now intros q [_ [[? ?] _]].
- apply fold_max_least; [now transitivity (vz p)|]. apply Hin. now intros q [_ [_ [? ?]]].
Qed.
End ExtentsFacts.

Lemma getExtents_contains_witness :
  Forall (contains Z.le (getExtents Z.le 1000 (-1000) two_vertices)) two_vertices.
Proof.
  exact (getExtents_contains Z.le 1000 (-1000) two_vertices).
Defined.

Lemma getExtents_order_irrelevant_witness :
  two_vertices ≡ₚ rev two_vertices /\
  same_box Z.le (getExtents Z.le 1000 (-1000) two_vertices)
    (getExtents Z.le 1000 (-1000) (rev two_vertices)).
Proof.
  assert (H : two_vertices ≡ₚ rev two_vertices) by apply perm_swap.
  split; [exact H |].
  exact (getExtents_order_irrelevant Z.le 1000 (-1000) _ _ H).
Defined.

Lemma getExtents_smallest_witness :
  contains_box Z.le room (getExtents Z.le 1000 (-1000) two_vertices).
Proof.
  assert (H1 : two_vertices <> []) by (unfold two_vertices; congruence).
  assert (H2 : Forall (finite Z.le 1000 (-1000)) two_vertices)
    by (unfold two_vertices, finite; repeat constructor; cbn; lia).
  assert (H3 : Forall (contains Z.le room) two_vertices)
    by (unfold two_vertices, contains, room; repeat constructor; cbn; lia).
  exact (getExtents_smallest Z.le 1000 (-1000) two_vertices room H1 H2 H3).
Defined.
